(** * Read-only list/get operations of the copilot API

    A shallow embedding of [src/api/data/crud.py] (the SQLAlchemy query
    builders [get_company], [get_companies], ...) and of
    [src/api/app/routers/invoices.py] (the asyncpg handlers
    [list_invoices], [read_invoice]), over a small executable model of the
    relational engine they talk to. *)

From Stdlib Require Import ZArith Ascii String DecimalString.
From Stdlib Require Import Sorting.Sorted.
From stdpp Require Import base tactics option list strings gmap.
From stdpp Require Import sorting.

Local Open Scope Z_scope.

(** ** Values, rows, tables *)

(** A cell of a relational table.  [VBool] only arises as the value of a
    predicate; [VNull] is SQL's NULL. *)
Inductive value : Type :=
  | VNull
  | VBool (b : bool)
  | VInt (z : Z)
  | VText (s : string).

#[export] Instance value_eq_dec : EqDecision value.
Proof. solve_decision. Defined.

(** A row is what [dict(row)] gives in Python: column name to value. *)
Abbreviation row := (gmap string value).
Abbreviation table := (list row).

(** The range of [bigint], the widest integer the server stores and the
    widest the driver sends. *)
Definition int64 (z : Z) : bool :=
  (-9223372036854775808 <=? z) && (z <=? 9223372036854775807).

(** The integer types of a column, each with its range. *)
Inductive int_type : Type := SmallInt | Integer | BigInt.

Definition in_range (ty : int_type) (z : Z) : bool :=
  match ty with
  | SmallInt => (-32768 <=? z) && (z <=? 32767)
  | Integer => (-2147483648 <=? z) && (z <=? 2147483647)
  | BigInt => int64 z
  end.

(** What a column can hold: an integer is in the range of the type of
    the column. *)
Definition storable (ty : int_type) (v : value) : bool :=
  match v with
  | VInt z => in_range ty z
  | _ => true
  end.

Definition storable_row (types : string -> int_type) (r : row) : bool :=
  forallb (fun kv => storable (types kv.1) kv.2) (map_to_list r).

Definition storable_tables (types : string -> string -> int_type)
    (ts : gmap string table) : bool :=
  forallb (fun kt => forallb (storable_row (types kt.1)) kt.2)
    (map_to_list ts).

(** The database server: its tables (table name to stored rows, in
    storage order), the integer type of each column (table name, then
    column name) and the lower-casing of its locale for the characters
    outside ASCII; the sources fix neither the types nor the locale.
    (A text with a NUL character, which the server stores in no column,
    is outside this model.) *)
Record database : Type := {
  tables : gmap string table;
  column_type : string -> string -> int_type;
  locale_lower : string -> string;
  tables_storable : storable_tables column_type tables = true
}.

#[export] Instance database_lookup : Lookup string table database :=
  fun t db => tables db !! t.

(** Reading a column of a row; a column the row does not carry is NULL. *)
Definition field (r : row) (c : string) : value := default VNull (r !! c).

Definition row_id (r : row) : value := field r "id".

(** ** Python strings *)

(** A Python [str] is carried as its UTF-8 bytes. *)

(** [s.split(sep)] for a one-character separator: cuts at every
    occurrence; the empty string gives one empty part. *)
Fixpoint split (sep : ascii) (s : string) : list string :=
  match s with
  | EmptyString => [EmptyString]
  | String c s' =>
      if Ascii.eqb c sep then EmptyString :: split sep s'
      else match split sep s' with
           | h :: t => String c h :: t
           | [] => [String c EmptyString]
           end
  end.

(** [str(n)], as an f-string interpolates an int. *)
Definition str (n : Z) : string := NilZero.string_of_int (Z.to_int n).

(** Plain substring test, for statements about messages. *)
Fixpoint starts_with (t s : string) : bool :=
  match t, s with
  | EmptyString, _ => true
  | String a t', String b s' => Ascii.eqb a b && starts_with t' s'
  | String _ _, EmptyString => false
  end.

Fixpoint contains (t s : string) : bool :=
  starts_with t s ||
  match s with
  | EmptyString => false
  | String _ s' => contains t s'
  end.

(** ** Pattern matching of the engine: ILIKE *)

(** The server matches characters, not bytes.  In UTF-8 a character is a
    byte below 128, or a byte from 128 on followed by its continuation
    bytes (those from 128 to 191). *)
Definition is_ascii (c : ascii) : bool := (N_of_ascii c <? 128)%N.

Definition is_continuation (c : ascii) : bool :=
  ((128 <=? N_of_ascii c) && (N_of_ascii c <? 192))%N.

Definition starts_with_continuation (ch : string) : bool :=
  match ch with
  | EmptyString => false
  | String c _ => is_continuation c
  end.

(** The characters of a string, each as its bytes. *)
Fixpoint chars (s : string) : list string :=
  match s with
  | EmptyString => []
  | String a s' =>
      match chars s' with
      | ch :: chs =>
          if negb (is_ascii a) && starts_with_continuation ch
          then String a ch :: chs
          else String a EmptyString :: ch :: chs
      | [] => [String a EmptyString]
      end
  end.

(** Lower-casing of an ASCII letter. *)
Definition to_lower (c : ascii) : ascii :=
  let n := N_of_ascii c in
  if ((65 <=? n) && (n <=? 90))%N then ascii_of_N (n + 32) else c.

Definition ci_eqb (a b : ascii) : bool := Ascii.eqb (to_lower a) (to_lower b).

(** Lower-casing of one character: the ASCII letters as everywhere, the
    other characters as the locale of the server has it. *)
Definition fold (db : database) (ch : string) : string :=
  match ch with
  | String a EmptyString =>
      if is_ascii a then String (to_lower a) EmptyString
      else locale_lower db ch
  | _ => locale_lower db ch
  end.

(** ILIKE lower-cases the pattern and the text, character by character,
    and then matches with LIKE. *)
Definition lower (db : database) (s : string) : list string :=
  fold db <$> chars s.

(** [like_match p s]: does the text [s] match the LIKE pattern [p], both
    given as characters.  ["%"] stands for any run of characters, ["_"]
    for any one character, and a backslash takes the next pattern
    character literally.  A pattern that ends in a lone backslash is
    rejected by the engine; the patterns built below always end in ["%"],
    so that case is answered [false] here. *)
Fixpoint like_match (p : list string) : list string -> bool :=
  match p with
  | [] => fun s => match s with [] => true | _ :: _ => false end
  | c :: p' =>
      if String.eqb c "%" then
        fix star (s : list string) : bool :=
          like_match p' s ||
          match s with
          | [] => false
          | _ :: s' => star s'
          end
      else if String.eqb c "_" then
        fun s => match s with
                 | [] => false
                 | _ :: s' => like_match p' s'
                 end
      else if String.eqb c "\" then
        match p' with
        | [] => fun _ => false
        | c' :: p'' =>
            fun s => match s with
                     | [] => false
                     | d :: s' => String.eqb c' d && like_match p'' s'
                     end
        end
      else
        fun s => match s with
                 | [] => false
                 | d :: s' => String.eqb c d && like_match p' s'
                 end
  end.







(** ** The relational engine *)

(** Scalar expressions, as far as the queries of the sources need them.
    [Param n] is the placeholder [$n] of a prepared statement: it stands
    for the n-th bound value, never for an identifier. *)
Inductive sql_expr : Type :=
  | Col (c : string)
  | Param (n : nat)
  | Lit (v : value)
  | Eq (a b : sql_expr)
  | ILike (a p : sql_expr)
  | Or (a b : sql_expr).

Inductive direction : Type := Asc | Desc.

(** [SELECT * FROM sel_from WHERE c1 AND ... ORDER BY ... LIMIT .. OFFSET ..] *)
Record select : Type := {
  sel_from : string;
  sel_where : list sql_expr;
  sel_order_by : list (sql_expr * direction);
  sel_limit : option sql_expr;
  sel_offset : option sql_expr
}.

Inductive statement : Type :=
  | SELECT (q : select)
  | INSERT (into : string) (r : row)
  | DELETE (from : string) (cond : list sql_expr).

Inductive db_error : Type :=
  | UndefinedTable (t : string)
  | NumericValueOutOfRange
  | InvalidRowCountInLimitClause
  | InvalidRowCountInResultOffsetClause
  | DatatypeMismatch.

(** Three-valued logic: NULL is "unknown". *)
Definition sql_or (a b : value) : value :=
  match a, b with
  | VBool true, _ | _, VBool true => VBool true
  | VBool false, VBool false => VBool false
  | _, _ => VNull
  end.

Definition sql_eq (a b : value) : value :=
  match a, b with
  | VBool x, VBool y => VBool (bool_decide (x = y))
  | VInt x, VInt y => VBool (x =? y)
  | VText x, VText y => VBool (String.eqb x y)
  | _, _ => VNull
  end.

Definition sql_ilike (db : database) (a p : value) : value :=
  match a, p with
  | VText s, VText pat => VBool (like_match (lower db pat) (lower db s))
  | _, _ => VNull
  end.

Fixpoint eval (db : database) (args : list value) (r : row) (e : sql_expr)
    : value :=
  match e with
  | Col c => field r c
  | Param n => default VNull (args !! pred n)
  | Lit v => v
  | Eq a b => sql_eq (eval db args r a) (eval db args r b)
  | ILike a p => sql_ilike db (eval db args r a) (eval db args r p)
  | Or a b => sql_or (eval db args r a) (eval db args r b)
  end.

(** A row passes WHERE when every conjunct is true (not false, not NULL). *)
Definition is_true (v : value) : bool :=
  match v with VBool true => true | _ => false end.

Definition passes (db : database) (args : list value) (conds : list sql_expr)
    (r : row) : bool :=
  forallb (fun c => is_true (eval db args r c)) conds.

(** The order of ORDER BY on cells: NULL sorts as the largest value, so
    ascending puts NULLs last and descending puts them first; text is
    compared byte by byte. *)
Definition value_leb (a b : value) : bool :=
  match a, b with
  | _, VNull => true
  | VNull, _ => false
  | VBool x, VBool y => implb x y
  | VBool _, _ => true
  | VInt _, VBool _ => false
  | VInt x, VInt y => x <=? y
  | VInt _, VText _ => true
  | VText x, VText y => String.leb x y
  | VText _, _ => false
  end.

Definition term_leb (db : database) (args : list value)
    (t : sql_expr * direction) (r1 r2 : row) : bool :=
  match t.2 with
  | Asc => value_leb (eval db args r1 t.1) (eval db args r2 t.1)
  | Desc => value_leb (eval db args r2 t.1) (eval db args r1 t.1)
  end.

(** Sorting keeps rows with equal keys in their previous order. *)
Fixpoint insert_by {A} (le : A -> A -> bool) (x : A) (l : list A) : list A :=
  match l with
  | [] => [x]
  | y :: l' => if le x y then x :: y :: l' else y :: insert_by le x l'
  end.

Definition sort_by {A} (le : A -> A -> bool) (l : list A) : list A :=
  foldr (insert_by le) [] l.

(** The first term of ORDER BY is the most significant one. *)
Definition order_rows (db : database) (args : list value)
    (terms : list (sql_expr * direction)) (rows : table) : table :=
  foldr (fun t acc => sort_by (term_leb db args t) acc) rows terms.

(** The row count of a LIMIT or OFFSET clause, as a [bigint]: absent or
    NULL means "no count"; a value outside the [bigint] range is refused
    when the count is converted. *)
Definition row_count (db : database) (args : list value)
    (e : option sql_expr) : db_error + option Z :=
  match e with
  | None => inr None
  | Some e =>
      match eval db args ∅ e with
      | VNull => inr None
      | VInt n => if int64 n then inr (Some n) else inl NumericValueOutOfRange
      | _ => inl DatatypeMismatch
      end
  end.

Definition is_negative (n : option Z) : bool :=
  match n with
  | Some n => n <? 0
  | None => false
  end.

(** The table is resolved first; then the two row counts are converted,
    OFFSET before LIMIT; then a negative count is refused, OFFSET again
    before LIMIT; then the rows are filtered, ordered and cut. *)
Definition run_select (args : list value) (q : select) (db : database)
    : db_error + table :=
  match db !! sel_from q with
  | None => inl (UndefinedTable (sel_from q))
  | Some rows =>
      match row_count db args (sel_offset q) with
      | inl e => inl e
      | inr off =>
          match row_count db args (sel_limit q) with
          | inl e => inl e
          | inr lim =>
              if is_negative off
              then inl InvalidRowCountInResultOffsetClause
              else if is_negative lim
              then inl InvalidRowCountInLimitClause
              else
                let kept := List.filter (passes db args (sel_where q)) rows in
                let sorted := order_rows db args (sel_order_by q) kept in
                let after := drop (Z.to_nat (default 0 off)) sorted in
                inr (match lim with
                     | Some n => take (Z.to_nat n) after
                     | None => after
                     end)
          end
      end
  end.

(** The database with its tables replaced, when the new tables are
    storable. *)
Definition with_tables (db : database) (ts : gmap string table)
    : option database :=
  match Bool.bool_dec (storable_tables (column_type db) ts) true with
  | left ok =>
      Some {| tables := ts; column_type := column_type db;
              locale_lower := locale_lower db;
              tables_storable := ok |}
  | right _ => None
  end.

(** Executing a statement: the rows it returns and the database after
    it.  A row that is not storable is refused; removing rows keeps the
    tables storable, so that DELETE always finds its new database. *)
Definition execute (st : statement) (args : list value) (db : database)
    : (db_error + table) * database :=
  match st with
  | SELECT q => (run_select args q db, db)
  | INSERT t r =>
      match db !! t with
      | None => (inl (UndefinedTable t), db)
      | Some rows =>
          match with_tables db (<[t := rows ++ [r]]> (tables db)) with
          | Some db' => (inr [], db')
          | None => (inl NumericValueOutOfRange, db)
          end
      end
  | DELETE t cond =>
      match db !! t with
      | None => (inl (UndefinedTable t), db)
      | Some rows =>
          let kept :=
            List.filter (fun r => negb (passes db args cond r)) rows in
          match with_tables db (<[t := kept]> (tables db)) with
          | Some db' => (inr [], db')
          | None => (inr [], db)
          end
      end
  end.

(** ** Python on top of the engine *)

(** The exceptions of the two access paths.  [DBAPIError] is SQLAlchemy's
    wrapper of an error of the server, [PostgresError] is asyncpg's;
    [DataError] is asyncpg refusing an argument before anything is sent;
    [ArgumentError] and [CompileError] are SQLAlchemy's own. *)
Inductive exn : Type :=
  | ValueError
  | AttributeError (name : string)
  | HTTPException (status_code : Z) (detail : string)
  | ArgumentError
  | CompileError
  | DBAPIError (e : db_error)
  | PostgresError (e : db_error)
  | DataError.

(** A computation that may raise and that runs against the database. *)
Definition M (A : Type) : Type := database -> (exn + A) * database.

#[export] Instance M_ret : MRet M := fun A x db => (inr x, db).
#[export] Instance M_bind : MBind M := fun A B f m db =>
  match m db with
  | (inl e, db') => (inl e, db')
  | (inr x, db') => f x db'
  end.

Definition raise {A} (e : exn) : M A := fun db => (inl e, db).

(** [try: body / except ValueError: handler]; any other exception
    propagates. *)
Definition try_except_ValueError {A} (body handler : M A) : M A := fun db =>
  match body db with
  | (inl ValueError, db') => handler db'
  | other => other
  end.

(** [a, b = parts]: unpacking into two names. *)
Definition unpack2 (parts : list string) : M (string * string) :=
  match parts with
  | [a; b] => mret (a, b)
  | _ => raise ValueError
  end.

(** [if s:] on an optional string: the branch is taken with the string
    when it is present and not empty. *)
Definition if_truthy {A} (o : option string) (th : string -> A) (el : A) : A :=
  match o with
  | Some (String c s) => th (String c s)
  | _ => el
  end.

(** Running a statement from Python: an error of the server becomes the
    exception of the access path, [wrap]. *)
Definition run (wrap : db_error -> exn) (st : statement) (args : list value)
    : M table := fun db =>
  match execute st args db with
  | (inl e, db') => (inl (wrap e), db')
  | (inr rows, db') => (inr rows, db')
  end.

(** *** SQLAlchemy: mapped classes and queries *)

(** What using an attribute of a mapped class as a sort key comes to,
    when the attribute is not a mapped column: SQLAlchemy coerces it to
    an expression to sort by, or refuses it when [asc] or [desc] is
    applied (ArgumentError for most objects), or takes it as a label and
    fails to resolve it when the query is compiled (CompileError for a
    string such as [__tablename__]). *)
Inductive attr_use : Type :=
  | SortsBy (e : sql_expr)
  | RaisesOnUse (e : exn)
  | RaisesOnCompile (e : exn).

(** What the query builders use of a mapped class of [data.models]: its
    table, the names of its mapped columns, and its other attributes
    (those of every Python class and those SQLAlchemy adds), each with
    what sorting by it comes to.  The module is not part of the sources,
    so a class is taken as given. *)
Record OrmClass : Type := {
  tablename : string;
  columns : list string;
  other_attributes : list (string * attr_use)
}.

(** [Cls.name] written in the source: a column the class declares. *)
Definition attr (C : OrmClass) (name : string) : sql_expr := Col name.

Inductive attribute : Type :=
  | MappedColumn (c : string)
  | OtherAttribute (u : attr_use).

Fixpoint assoc {A} (k : string) (l : list (string * A)) : option A :=
  match l with
  | [] => None
  | (k', v) :: l' => if String.eqb k k' then Some v else assoc k l'
  end.

(** [getattr(Cls, name)] with a name computed at run time: a mapped column
    or another attribute of the class; a name the class does not have
    raises AttributeError. *)
Definition getattr (C : OrmClass) (name : string) : M attribute :=
  if bool_decide (name ∈ columns C) then mret (MappedColumn name)
  else match assoc name (other_attributes C) with
       | Some u => mret (OtherAttribute u)
       | None => raise (AttributeError name)
       end.

(** An element of ORDER BY: an expression with its direction, or what
    will stop the compilation of the query. *)
Inductive order_clause : Type :=
  | OrderExpr (e : sql_expr) (d : direction)
  | Uncompilable (e : exn).

Definition order_of (d : direction) (a : attribute) : M order_clause :=
  match a with
  | MappedColumn c => mret (OrderExpr (Col c) d)
  | OtherAttribute (SortsBy e) => mret (OrderExpr e d)
  | OtherAttribute (RaisesOnUse e) => raise e
  | OtherAttribute (RaisesOnCompile e) => mret (Uncompilable e)
  end.

(** [asc(x)], [desc(x)] *)
Definition asc (a : attribute) : M order_clause := order_of Asc a.
Definition desc (a : attribute) : M order_clause := order_of Desc a.

Record Query : Type := {
  q_entity : OrmClass;
  q_criteria : list sql_expr;
  q_ordering : list order_clause;
  q_offset : option Z;
  q_limit : option Z
}.

Definition db_query (C : OrmClass) : Query :=
  {| q_entity := C; q_criteria := []; q_ordering := [];
     q_offset := None; q_limit := None |}.

Definition filter_ (q : Query) (c : sql_expr) : Query :=
  {| q_entity := q_entity q; q_criteria := q_criteria q ++ [c];
     q_ordering := q_ordering q;
     q_offset := q_offset q; q_limit := q_limit q |}.

Definition order_by (q : Query) (t : order_clause) : Query :=
  {| q_entity := q_entity q; q_criteria := q_criteria q;
     q_ordering := q_ordering q ++ [t];
     q_offset := q_offset q; q_limit := q_limit q |}.

Definition offset (q : Query) (n : Z) : Query :=
  {| q_entity := q_entity q; q_criteria := q_criteria q;
     q_ordering := q_ordering q;
     q_offset := Some n; q_limit := q_limit q |}.

Definition limit_ (q : Query) (n : Z) : Query :=
  {| q_entity := q_entity q; q_criteria := q_criteria q;
     q_ordering := q_ordering q;
     q_offset := q_offset q; q_limit := Some n |}.

Definition ilike (e : sql_expr) (pattern : string) : sql_expr :=
  ILike e (Lit (VText pattern)).

(** [or_(c1, ..., cn)] *)
Fixpoint or_ (cs : list sql_expr) : sql_expr :=
  match cs with
  | [] => Lit (VBool false)
  | [c] => c
  | c :: cs' => Or c (or_ cs')
  end.

(** The ORDER BY of the compiled statement. *)
Fixpoint compile_ordering (cl : list order_clause)
    : exn + list (sql_expr * direction) :=
  match cl with
  | [] => inr []
  | OrderExpr e d :: cl' =>
      match compile_ordering cl' with
      | inr ts => inr ((e, d) :: ts)
      | inl err => inl err
      end
  | Uncompilable err :: _ => inl err
  end.

(** The SELECT a query stands for; the row counts are written into the
    statement. *)
Definition compile (q : Query) : exn + select :=
  match compile_ordering (q_ordering q) with
  | inr ts =>
      inr {| sel_from := tablename (q_entity q);
             sel_where := q_criteria q;
             sel_order_by := ts;
             sel_limit := (fun n => Lit (VInt n)) <$> q_limit q;
             sel_offset := (fun n => Lit (VInt n)) <$> q_offset q |}
  | inl err => inl err
  end.

(** Executing a query: it is compiled, then sent; an error of the
    server comes back as DBAPIError. *)
Definition execute_query (q : Query) : M table :=
  match compile q with
  | inr s => run DBAPIError (SELECT s) []
  | inl err => raise err
  end.

(** [query.all()] *)
Definition all (q : Query) : M table := execute_query q.

(** [query.first()]: the first row of the query limited to one row, or
    [None]. *)
Definition first (q : Query) : M (option row) :=
  rows ← execute_query (limit_ q 1);
  mret (head rows).

(** *** asyncpg: a connection *)

(** The driver prepares the statement, learns from the server the type
    of each placeholder and encodes the arguments before it sends them:
    an integer outside the range of the type of its placeholder is
    refused with DataError.  The placeholder of a row count is a
    [bigint]; a placeholder compared with a column has the type of the
    column.  (The sources bind integers nowhere else; [bigint] stands
    for the type of any other placeholder.) *)
Definition is_param (n : nat) (e : sql_expr) : bool :=
  match e with
  | Param m => Nat.eqb m n
  | _ => false
  end.

Fixpoint compared_column (n : nat) (e : sql_expr) : option string :=
  match e with
  | Eq (Col c) b => if is_param n b then Some c else None
  | Eq a b | ILike a b | Or a b =>
      match compared_column n a with
      | Some c => Some c
      | None => compared_column n b
      end
  | _ => None
  end.

Definition is_row_count (n : nat) (q : select) : bool :=
  existsb (is_param n)
    (option_list (sel_limit q) ++ option_list (sel_offset q)).

Definition param_type (db : database) (q : select) (n : nat) : int_type :=
  if is_row_count n q then BigInt
  else match head (omap (compared_column n) (sel_where q)) with
       | Some c => column_type db (sel_from q) c
       | None => BigInt
       end.

Definition encodable (db : database) (q : select) (n : nat) (v : value)
    : bool :=
  match v with
  | VInt z => in_range (param_type db q n) z
  | _ => true
  end.

Definition send (sql : select) (args : list value) : M table := fun db =>
  if forallb (fun b : bool => b) (imap (fun i => encodable db sql (S i)) args)
  then run PostgresError (SELECT sql) args db
  else raise DataError db.

(** [conn.fetch(sql, *args)] *)
Definition fetch (sql : select) (args : list value) : M table :=
  send sql args.

(** [conn.fetchrow(sql, *args)]: the first row, or [None]. *)
Definition fetchrow (sql : select) (args : list value) : M (option row) :=
  rows ← send sql args;
  mret (head rows).

(** ** src/api/data/crud.py *)

Module crud.
Section Models.

(** [from data.models import ContractCompany, Vendor, Sow, Invoice]: the
    module is not part of the sources, so the four mapped classes are
    taken as given. *)
Context (ContractCompany Vendor Sow Invoice : OrmClass).

Definition get_company (company_id : Z) : M (option row) :=
  first (filter_ (db_query ContractCompany)
           (Eq (attr ContractCompany "id") (Lit (VInt company_id)))).

Definition get_companies (skip limit : Z) (sortby search : option string)
    : M table :=
  let query := db_query ContractCompany in
  let query :=
    if_truthy search (fun search =>
      let search := "%" +:+ search +:+ "%" in
      filter_ query
        (or_ [ ilike (attr ContractCompany "company_name") search;
               ilike (attr ContractCompany "address") search;
               ilike (attr ContractCompany "contact_person") search;
               ilike (attr ContractCompany "contact_email") search ]))
      query in
  query ←
    if_truthy sortby (fun sortby =>
      try_except_ValueError
        ('(sort_column, sort_order) ← unpack2 (split ":" sortby);
         if String.eqb sort_order "desc" then
           a ← getattr ContractCompany sort_column;
           t ← desc a;
           mret (order_by query t)
         else
           a ← getattr ContractCompany sort_column;
           t ← asc a;
           mret (order_by query t))
        (mret query))
      (mret query);
  all (limit_ (offset query skip) limit).

Definition get_vendor (vendor_id : Z) : M (option row) :=
  first (filter_ (db_query Vendor)
           (Eq (attr Vendor "id") (Lit (VInt vendor_id)))).

Definition get_vendors (skip limit : Z) (sortby search : option string)
    : M table :=
  let query := db_query Vendor in
  let query :=
    if_truthy search (fun search =>
      let search := "%" +:+ search +:+ "%" in
      filter_ query
        (or_ [ ilike (attr Vendor "name") search;
               ilike (attr Vendor "address") search;
               ilike (attr Vendor "contact_name") search;
               ilike (attr Vendor "contact_email") search;
               ilike (attr Vendor "contact_phone") search;
               ilike (attr Vendor "contact_type") search ]))
      query in
  query ←
    if_truthy sortby (fun sortby =>
      try_except_ValueError
        ('(sort_column, sort_order) ← unpack2 (split ":" sortby);
         if String.eqb sort_order "desc" then
           a ← getattr Vendor sort_column;
           t ← desc a;
           mret (order_by query t)
         else
           a ← getattr Vendor sort_column;
           t ← asc a;
           mret (order_by query t))
        (mret query))
      (mret query);
  all (limit_ (offset query skip) limit).

Definition get_sow (sow_id : Z) : M (option row) :=
  first (filter_ (db_query Sow) (Eq (attr Sow "id") (Lit (VInt sow_id)))).

Definition get_sows (skip limit : Z) (sortby search : option string)
    : M table :=
  let query := db_query Sow in
  let query :=
    if_truthy search (fun search =>
      let search := "%" +:+ search +:+ "%" in
      filter_ query
        (or_ [ ilike (attr Sow "sow_title") search;
               ilike (attr Sow "sow_document") search ]))
      query in
  query ←
    if_truthy sortby (fun sortby =>
      try_except_ValueError
        ('(sort_column, sort_order) ← unpack2 (split ":" sortby);
         if String.eqb sort_order "desc" then
           a ← getattr Sow sort_column;
           t ← desc a;
           mret (order_by query t)
         else
           a ← getattr Sow sort_column;
           t ← asc a;
           mret (order_by query t))
        (mret query))
      (mret query);
  all (limit_ (offset query skip) limit).

Definition get_invoice (invoice_id : Z) : M (option row) :=
  first (filter_ (db_query Invoice)
           (Eq (attr Invoice "id") (Lit (VInt invoice_id)))).

Definition get_invoices (skip limit : Z) (sortby search : option string)
    : M table :=
  let query := db_query Invoice in
  let query :=
    if_truthy search (fun search =>
      let search := "%" +:+ search +:+ "%" in
      filter_ query
        (or_ [ ilike (attr Invoice "invoice_number") search;
               ilike (attr Invoice "payment_status") search ]))
      query in
  query ←
    if_truthy sortby (fun sortby =>
      try_except_ValueError
        ('(sort_column, sort_order) ← unpack2 (split ":" sortby);
         if String.eqb sort_order "desc" then
           a ← getattr Invoice sort_column;
           t ← desc a;
           mret (order_by query t)
         else
           a ← getattr Invoice sort_column;
           t ← asc a;
           mret (order_by query t))
        (mret query))
      (mret query);
  all (limit_ (offset query skip) limit).

End Models.
End crud.

(** ** src/api/app/routers/invoices.py *)

Module invoices.

(** The response shape of a collection endpoint (the same four fields as
    [ContractCompanyListResponse] of the schemas). *)
Record ListResponse : Type := {
  data : table;
  total : Z;
  skip : Z;
  limit : Z
}.

(** The response model [Invoice], built from the keyword arguments
    [dict(row)]; the stored rows are taken to satisfy it, so that it
    carries the row's fields as they are. *)
Definition Invoice (fields : row) : row := fields.

(** ['SELECT * FROM invoices ORDER BY $1 LIMIT $2 OFFSET $3;'] *)
Definition list_invoices_sql : select :=
  {| sel_from := "invoices";
     sel_where := [];
     sel_order_by := [(Param 1, Asc)];
     sel_limit := Some (Param 2);
     sel_offset := Some (Param 3) |}.

(** ['SELECT * FROM invoices WHERE id = $1;'] *)
Definition read_invoice_sql : select :=
  {| sel_from := "invoices";
     sel_where := [Eq (Col "id") (Param 1)];
     sel_order_by := [];
     sel_limit := None;
     sel_offset := None |}.

Definition list_invoices (skip limit : Z) (sortby search : option string)
    : M ListResponse :=
  let orderby := "id" in
  let orderby := if_truthy sortby (fun sortby => sortby) orderby in
  rows ← fetch list_invoices_sql [VText orderby; VInt limit; VInt skip];
  let invoices := Invoice <$> rows in
  mret {| data := invoices; total := Z.of_nat (length invoices);
          skip := skip; limit := limit |}.

Definition read_invoice (invoice_id : Z) : M row :=
  row ← fetchrow read_invoice_sql [VInt invoice_id];
  match row with
  | None =>
      raise (HTTPException 404
               ("An invoice with an id of " +:+ str invoice_id +:+
                " was not found."))
  | Some row => mret (Invoice row)
  end.

End invoices.

(** ** The four list operations as one query plan *)

(** The direction a direction string asks for. *)
Definition direction_of (dir : string) : direction :=
  if String.eqb dir "desc" then Desc else Asc.

(** The four list operations of [crud] differ only in the mapped class
    and in the text columns they search: [list_query] is their common
    shape, and [plan], [criteria] say which SELECT it ends up running. *)
Definition list_query (C : OrmClass) (fields : list string)
    (skip limit : Z) (sortby search : option string) : M table :=
  let query := db_query C in
  let query :=
    if_truthy search (fun search =>
      let search := "%" +:+ search +:+ "%" in
      filter_ query (or_ ((fun f => ilike (attr C f) search) <$> fields)))
      query in
  query ←
    if_truthy sortby (fun sortby =>
      try_except_ValueError
        ('(sort_column, sort_order) ← unpack2 (split ":" sortby);
         if String.eqb sort_order "desc" then
           a ← getattr C sort_column;
           t ← desc a;
           mret (order_by query t)
         else
           a ← getattr C sort_column;
           t ← asc a;
           mret (order_by query t))
        (mret query))
      (mret query);
  all (limit_ (offset query skip) limit).

Definition company_fields : list string :=
  ["company_name"; "address"; "contact_person"; "contact_email"].
Definition vendor_fields : list string :=
  ["name"; "address"; "contact_name"; "contact_email"; "contact_phone";
   "contact_type"].
Definition sow_fields : list string := ["sow_title"; "sow_document"].
Definition invoice_fields : list string := ["invoice_number"; "payment_status"].

(** What a sort request comes to: no ordering, an ordering on an
    expression, or an exception that reaches the caller. *)
Inductive sort_plan : Type :=
  | Unsorted
  | SortedOn (e : sql_expr) (d : direction)
  | Fails (e : exn).

Definition plan_of_use (u : attr_use) (d : direction) : sort_plan :=
  match u with
  | SortsBy e => SortedOn e d
  | RaisesOnUse ValueError => Unsorted
  | RaisesOnUse e => Fails e
  | RaisesOnCompile e => Fails e
  end.

Definition plan (C : OrmClass) (sortby : option string) : sort_plan :=
  if_truthy sortby (fun s =>
    match split ":" s with
    | [c; o] =>
        if bool_decide (c ∈ columns C) then SortedOn (Col c) (direction_of o)
        else match assoc c (other_attributes C) with
             | Some u => plan_of_use u (direction_of o)
             | None => Fails (AttributeError c)
             end
    | _ => Unsorted
    end) Unsorted.

Definition plan_terms (p : sort_plan) : list (sql_expr * direction) :=
  match p with
  | SortedOn e d => [(e, d)]
  | _ => []
  end.

Definition criteria (fields : list string) (search : option string)
    : list sql_expr :=
  if_truthy search (fun s =>
    [or_ ((fun f => ilike (Col f) ("%" +:+ s +:+ "%")) <$> fields)]) [].

(** ** Vocabulary of the statements *)

(** The page window [OFFSET skip LIMIT limit] of a sequence of rows. *)
Definition window (skip limit : Z) (rows : table) : table :=
  take (Z.to_nat limit) (drop (Z.to_nat skip) rows).

(** What the server answers to [OFFSET skip LIMIT limit] over the
    ordered rows: the two counts must be in the [bigint] range and must
    not be negative. *)
Definition cut (skip limit : Z) (ordered : table) : db_error + table :=
  if negb (int64 skip) then inl NumericValueOutOfRange
  else if negb (int64 limit) then inl NumericValueOutOfRange
  else if skip <? 0 then inl InvalidRowCountInResultOffsetClause
  else if limit <? 0 then inl InvalidRowCountInLimitClause
  else inr (window skip limit ordered).

(** The primary key: no two stored rows share an id. *)
Definition unique_ids (rows : table) : Prop := NoDup (row_id <$> rows).


(** Some text column among [fields] matches [%term%] under ILIKE. *)
Definition row_ilike (db : database) (fields : list string) (term : string)
    (r : row) : bool :=
  existsb (fun f => is_true (sql_ilike db (field r f)
                               (VText ("%" +:+ term +:+ "%"))))
    fields.


(** The filter a [search] argument stands for: none when it is absent or
    empty, the ILIKE test against [%term%] otherwise. *)
Definition matches (db : database) (fields : list string)
    (search : option string) (r : row) : bool :=
  if_truthy search (fun term => row_ilike db fields term r) true.



(** A name the class has, as a mapped column or otherwise. *)
Definition is_attribute (C : OrmClass) (name : string) : Prop :=
  name ∈ columns C ∨ is_Some (assoc name (other_attributes C)).

Definition nondecreasing_on (c : string) (page : table) : Prop :=
  Sorted (fun r1 r2 => value_leb (field r1 c) (field r2 c) = true) page.

Definition nonincreasing_on (c : string) (page : table) : Prop :=
  Sorted (fun r1 r2 => value_leb (field r2 c) (field r1 c) = true) page.

(** The order of a page on column [col] in direction [d]: [r1] may come
    before [r2]. *)
Definition may_precede (col : string) (d : direction) (r1 r2 : row) : Prop :=
  match d with
  | Asc => value_leb (field r1 col) (field r2 col) = true
  | Desc => value_leb (field r2 col) (field r1 col) = true
  end.

(** The outcome [out] of a list operation sorted by [col] in direction
    [dir]: a returned page is ordered on [col], downwards exactly for
    ["desc"]; and a page is returned when the table exists and the row
    counts are not negative and in the [bigint] range. *)
Definition sorted_page (C : OrmClass) (col dir : string) (skip limit : Z)
    (db : database) (out : exn + table) : Prop :=
  (∀ page, out = inr page →
     (dir = "desc" → nonincreasing_on col page) ∧
     (dir ≠ "desc" → nondecreasing_on col page)) ∧
  (is_Some (db !! tablename C) →
   0 ≤ skip → int64 skip = true → 0 ≤ limit → int64 limit = true →
   ∃ page, out = inr page).

(** The detail message of the 404 of [read_invoice]. *)
Definition not_found_detail (invoice_id : Z) : string :=
  "An invoice with an id of " +:+ str invoice_id +:+ " was not found.".

Fixpoint colon_free (s : string) : bool :=
  match s with
  | EmptyString => true
  | String c s' => negb (Ascii.eqb c ":") && colon_free s'
  end.

Definition ids (rs : exn + table) : exn + list value :=
  match rs with
  | inr rs => inr (row_id <$> rs)
  | inl e => inl e
  end.

(** Two strings that differ in the case of their ASCII letters only. *)
Fixpoint same_letters (t t' : string) : bool :=
  match t, t' with
  | EmptyString, EmptyString => true
  | String a t, String b t' => ci_eqb a b && same_letters t t'
  | _, _ => false
  end.

(** Two characters that agree up to the case of an ASCII letter. *)
Definition same_character (ch ch' : string) : Prop :=
  ch = ch' ∨
  ∃ a b, ch = String a "" ∧ ch' = String b "" ∧
         is_ascii a = true ∧ is_ascii b = true ∧ to_lower a = to_lower b.

(** Some column among [fields] holds a text (is not NULL). *)
Definition has_text (fields : list string) (r : row) : bool :=
  existsb (fun f => match field r f with VText _ => true | _ => false end)
    fields.

(** A term made of ["%"] characters only. *)
Fixpoint all_percent (t : string) : bool :=
  match t with
  | EmptyString => true
  | String c t' => Ascii.eqb c "%" && all_percent t'
  end.

(** ** The operations by family *)

(** The four list operations of [crud], each with its mapped class and
    the text columns it searches. *)
Definition orm_list_ops (CC V S I : OrmClass)
    : list (OrmClass * list string *
            (Z → Z → option string → option string → M table)) :=
  [ (CC, company_fields, crud.get_companies CC);
    (V, vendor_fields, crud.get_vendors V);
    (S, sow_fields, crud.get_sows S);
    (I, invoice_fields, crud.get_invoices I) ].

(** The four lookups by id of [crud], each with its mapped class. *)
Definition orm_get_ops (CC V S I : OrmClass)
    : list (OrmClass * (Z → M (option row))) :=
  [ (CC, crud.get_company CC);
    (V, crud.get_vendor V);
    (S, crud.get_sow S);
    (I, crud.get_invoice I) ].

(** ** Sample data *)

(** Of the attributes a mapped class has besides its columns, the two
    the examples use: [metadata], an object [asc] and [desc] refuse, and
    [__tablename__], a string that resolves to no label. *)
Definition declarative_attributes : list (string * attr_use) :=
  [ ("metadata", RaisesOnUse ArgumentError);
    ("__tablename__", RaisesOnCompile CompileError) ].

(** Modelled from the spec: the mapped class [ContractCompany] of
    [data.models], which is not part of the sources; its columns are the
    fields of the read schema [api/v1/schemas/company.py]. *)
Definition company_cls : OrmClass :=
  {| tablename := "companies";
     columns := ["id"; "company_name"; "address"; "contact_person";
                 "contact_email"; "extra_metadata"];
     other_attributes := declarative_attributes |}.

(** Modelled from the spec: the mapped class [Vendor] of [data.models],
    with the columns of the spec's data model. *)
Definition vendor_cls : OrmClass :=
  {| tablename := "vendors";
     columns := ["id"; "name"; "address"; "contact_name"; "contact_email";
                 "contact_phone"; "contact_type"];
     other_attributes := declarative_attributes |}.

(** Modelled from the spec: the mapped class [Sow] of [data.models]; its
    columns are the fields of the read schema [api/v1/schemas/sows.py]. *)
Definition sow_cls : OrmClass :=
  {| tablename := "sows";
     columns := ["id"; "sow_title"; "start_date"; "end_date"; "budget";
                 "sow_document"; "details"];
     other_attributes := declarative_attributes |}.

(** Modelled from the spec: the mapped class [Invoice] of [data.models],
    with the columns of the spec's data model. *)
Definition invoice_cls : OrmClass :=
  {| tablename := "invoices";
     columns := ["id"; "invoice_number"; "payment_status"];
     other_attributes := declarative_attributes |}.

Definition mk_company (i : Z) (name : string) : row :=
  {[ "id" := VInt i; "company_name" := VText name ]}.

Definition mk_invoice (i : Z) (number status : string) : row :=
  {[ "id" := VInt i; "invoice_number" := VText number;
     "payment_status" := VText status ]}.

Definition acme_companies : table :=
  [mk_company 1 "Acme"; mk_company 2 "Acme Corp"; mk_company 3 "Zenith"].

Definition acme_invoices : table :=
  [mk_invoice 1 "INV-B" "paid"; mk_invoice 2 "INV-A" "open"].

Definition acme_tables : gmap string table :=
  {[ "companies" := acme_companies;
     "vendors" := [];
     "sows" := [];
     "invoices" := acme_invoices ]}.

(** The collection of the spec's scenario, and two invoices, on a server
    whose integer columns are [integer] and whose locale lower-cases
    nothing outside ASCII. *)
Definition acme_db : database :=
  {| tables := acme_tables;
     column_type := fun _ _ => Integer;
     locale_lower := fun ch => ch;
     tables_storable := eq_refl |}.

(** * Properties *)

(** ** Strings *)

Lemma split_colon_free s : colon_free s = true → split ":" s = [s].
Proof.
  induction s as [|c s IH]; simpl; [done|].
  intros [Hc Hs]%andb_true_iff.
  apply negb_true_iff in Hc. rewrite Hc, (IH Hs). done.
Qed.

Lemma append_nil (s : string) : "" +:+ s = s.
Proof. reflexivity. Qed.

Lemma append_cons c (a s : string) : String c a +:+ s = String c (a +:+ s).
Proof. reflexivity. Qed.

Lemma split_pair a b :
  colon_free a = true → colon_free b = true →
  split ":" (a +:+ ":" +:+ b) = [a; b].
Proof.
  intros Ha Hb. induction a as [|c a IH].
  - rewrite append_nil, append_cons, append_nil. simpl.
    by rewrite (split_colon_free b Hb).
  - simpl in Ha. apply andb_true_iff in Ha as [Hc Ha].
    apply negb_true_iff in Hc. rewrite append_cons. simpl.
    rewrite Hc, (IH Ha). done.
Qed.

Lemma starts_with_refl_app t s : starts_with t (t +:+ s) = true.
Proof.
  induction t as [|c t IH]; [done|].
  rewrite append_cons. simpl. by rewrite Ascii.eqb_refl, IH.
Qed.

Lemma contains_app t a b : contains t (a +:+ t +:+ b) = true.
Proof.
  induction a as [|c a IH].
  - rewrite append_nil. destruct t as [|c t]; [by destruct b|].
    rewrite append_cons. simpl.
    rewrite Ascii.eqb_refl, starts_with_refl_app. done.
  - rewrite append_cons. simpl. rewrite IH. apply orb_true_r.
Qed.

(** ** What the tables hold *)

Lemma stored_integer_in_range (db : database) t (rows : table) (r : row) c n :
  db !! t = Some rows → r ∈ rows → field r c = VInt n →
  in_range (column_type db t c) n = true.
Proof.
  intros Hdb Hr Hf.
  pose proof (tables_storable db) as Hts. unfold storable_tables in Hts.
  rewrite forallb_forall in Hts.
  assert (In (t, rows) (map_to_list (tables db))) as Hin.
  { apply list_elem_of_In, elem_of_map_to_list. exact Hdb. }
  apply Hts in Hin. cbn [snd] in Hin. rewrite forallb_forall in Hin.
  apply list_elem_of_In, Hin in Hr. unfold storable_row in Hr.
  rewrite forallb_forall in Hr.
  unfold field in Hf. destruct (r !! c) as [v|] eqn:Hc; [|done].
  cbn in Hf. subst v.
  assert (In (c, VInt n) (map_to_list r)) as Hc'.
  { by apply list_elem_of_In, elem_of_map_to_list. }
  by apply Hr in Hc'.
Qed.

(** ** ILIKE against [%term%] *)

Lemma like_percent q s :
  like_match ("%" :: q) s =
  like_match q s ||
  match s with
  | [] => false
  | _ :: s' => like_match ("%" :: q) s'
  end.
Proof. destruct s; reflexivity. Qed.

Lemma like_percent_only s : like_match ["%"] s = true.
Proof.
  induction s as [|c s IH]; [done|].
  rewrite like_percent, IH. apply orb_true_r.
Qed.






(** *** Characters *)

Lemma chars_nil s : chars s = [] → s = "".
Proof.
  destruct s as [|a s]; [done|]. simpl.
  destruct (chars s) as [|ch chs]; [done|]. by case_match.
Qed.

Lemma chars_ascii a s :
  is_ascii a = true → chars (String a s) = String a "" :: chars s.
Proof.
  intros Ha. simpl. rewrite Ha. by destruct (chars s).
Qed.

Lemma chars_app_percent t : chars (t +:+ "%") = chars t ++ ["%"].
Proof.
  induction t as [|a t IH]; [done|].
  rewrite append_cons. simpl. rewrite IH.
  destruct (chars t) as [|ch chs] eqn:Hch.
  - simpl. by rewrite andb_false_r.
  - simpl. by case_match.
Qed.

Lemma chars_wrap t : chars ("%" +:+ t +:+ "%") = "%" :: chars t ++ ["%"].
Proof.
  rewrite append_cons, append_nil, chars_ascii by done.
  by rewrite chars_app_percent.
Qed.

Lemma lower_wrap db t :
  lower db ("%" +:+ t +:+ "%") = "%" :: lower db t ++ ["%"].
Proof. unfold lower. rewrite chars_wrap, fmap_cons, fmap_app. done. Qed.




Lemma to_lower_ascii a : is_ascii (to_lower a) = is_ascii a.
Proof. destruct a as [[] [] [] [] [] [] [] []]; reflexivity. Qed.

Lemma to_lower_not_ascii a : is_ascii a = false → to_lower a = a.
Proof. destruct a as [[] [] [] [] [] [] [] []]; done. Qed.

Lemma is_continuation_not_ascii a : is_continuation a = true → is_ascii a = false.
Proof. destruct a as [[] [] [] [] [] [] [] []]; done. Qed.







Lemma is_true_VBool b : is_true (VBool b) = b.
Proof. by destruct b. Qed.



(** ** Three-valued disjunction and the WHERE clause *)

Lemma is_true_sql_or a b : is_true (sql_or a b) = is_true a || is_true b.
Proof. by destruct a as [|[]| |], b as [|[]| |]. Qed.

Lemma is_true_or_ db args r es :
  is_true (eval db args r (or_ es)) =
  existsb (fun e => is_true (eval db args r e)) es.
Proof.
  induction es as [|e es IH]; [done|].
  destruct es as [|e' es].
  - simpl. by rewrite orb_false_r.
  - change (or_ (e :: e' :: es)) with (Or e (or_ (e' :: es))).
    cbn [eval]. rewrite is_true_sql_or, IH. done.
Qed.

Lemma passes_criteria db fields c t r :
  passes db [] (criteria fields (Some (String c t))) r =
  row_ilike db fields (String c t) r.
Proof.
  unfold passes, criteria, row_ilike. cbn [if_truthy forallb].
  rewrite is_true_or_, andb_true_r.
  induction fields as [|f fields IH]; [done|].
  cbn [fmap list_fmap existsb]. by rewrite IH.
Qed.

Lemma passes_matches db fields search r :
  passes db [] (criteria fields search) r = matches db fields search r.
Proof.
  destruct search as [[|c t]|]; [done| |done]. apply passes_criteria.
Qed.

(** ** Sorting *)

Section Sorting.
Context {A : Type} (le : A → A → bool).

Lemma insert_by_perm x l : insert_by le x l ≡ₚ x :: l.
Proof.
  induction l as [|y l IH]; simpl; [done|].
  destruct (le x y); [done|]. rewrite IH. apply Permutation_swap.
Qed.

Lemma sort_by_perm l : sort_by le l ≡ₚ l.
Proof.
  induction l as [|x l IH]; simpl; [done|].
  rewrite insert_by_perm. by f_equiv.
Qed.

(** A key that does not tell rows apart leaves the order as it was. *)
Lemma sort_by_constant l : (∀ x y, le x y = true) → sort_by le l = l.
Proof.
  intros Hle. induction l as [|x l IH]; simpl; [done|].
  fold (sort_by le l). rewrite IH. destruct l as [|y l]; simpl; [done|].
  by rewrite Hle.
Qed.

Hypothesis le_total : ∀ x y, le x y = false → le y x = true.

Lemma insert_by_sorted x l :
  Sorted (fun a b => le a b = true) l →
  Sorted (fun a b => le a b = true) (insert_by le x l).
Proof.
  induction 1 as [|y l Hs IH Hhd]; simpl.
  - by repeat constructor.
  - destruct (le x y) eqn:Hxy.
    + constructor; [by constructor|]. by constructor.
    + constructor; [done|].
      destruct l as [|z l]; simpl.
      * constructor. by apply le_total.
      * destruct (le x z); constructor; [by apply le_total|].
        by inversion Hhd.
Qed.

Lemma sort_by_sorted l : Sorted (fun a b => le a b = true) (sort_by le l).
Proof.
  induction l as [|x l IH]; simpl; [constructor|].
  by apply insert_by_sorted.
Qed.

End Sorting.

Lemma Sorted_drop {A} (R : A → A → Prop) n l : Sorted R l → Sorted R (drop n l).
Proof.
  revert l. induction n as [|n IH]; intros l Hs; [done|].
  destruct l as [|x l]; [done|]. simpl. apply IH. by inversion Hs.
Qed.

Lemma Sorted_take {A} (R : A → A → Prop) n l : Sorted R l → Sorted R (take n l).
Proof.
  intros Hs. revert n.
  induction Hs as [|x l Hs IH Hhd]; intros [|n]; simpl; try constructor.
  - apply IH.
  - destruct Hhd, n; simpl; by constructor.
Qed.

Lemma value_leb_total a b : value_leb a b = false → value_leb b a = true.
Proof.
  destruct a as [|[]|x|x], b as [|[]|y|y]; simpl; try done.
  - intros H. apply Z.leb_gt in H. apply Z.leb_le. lia.
  - intros H. by destruct (String.leb_total x y) as [H'|H']; [congruence|].
Qed.

Lemma value_leb_refl v : value_leb v v = true.
Proof.
  destruct v as [|[]|x|x]; simpl; try done.
  - apply Z.leb_refl.
  - apply Is_true_true. change (String.le x x). done.
Qed.

Lemma value_leb_trans a b c :
  value_leb a b = true → value_leb b c = true → value_leb a c = true.
Proof.
  destruct a as [|[]|x|x], b as [|[]|y|y], c as [|[]|z|z]; simpl; try done.
  - intros ?%Z.leb_le ?%Z.leb_le. apply Z.leb_le. lia.
  - intros H1%Is_true_true H2%Is_true_true. apply Is_true_true.
    change (String.le x z). by trans y.
Qed.

Lemma term_leb_total db args t r1 r2 :
  term_leb db args t r1 r2 = false → term_leb db args t r2 r1 = true.
Proof. unfold term_leb. destruct t.2; apply value_leb_total. Qed.

Lemma order_rows_perm db args terms rows :
  order_rows db args terms rows ≡ₚ rows.
Proof.
  induction terms as [|t terms IH]; simpl; [done|].
  by rewrite sort_by_perm.
Qed.

(** ** Lists *)

Lemma filter_pointwise {A} (p q : A → bool) (l : list A) :
  (∀ x, p x = q x) → List.filter p l = List.filter q l.
Proof.
  intros Hpq. induction l as [|x l IH]; simpl; [done|].
  by rewrite Hpq, IH.
Qed.

Lemma filter_all_true {A} (p : A → bool) (l : list A) :
  (∀ x, p x = true) → List.filter p l = l.
Proof.
  intros Hp. induction l as [|x l IH]; simpl; [done|]. by rewrite Hp, IH.
Qed.

Lemma filter_elem_of {A} (p : A → bool) (l : list A) x :
  x ∈ List.filter p l ↔ x ∈ l ∧ p x = true.
Proof. rewrite !list_elem_of_In. apply List.filter_In. Qed.

Lemma filter_length_le {A} (p : A → bool) (l : list A) :
  (length (List.filter p l) ≤ length l)%nat.
Proof.
  induction l as [|x l IH]; simpl; [done|]. destruct (p x); simpl; lia.
Qed.

Lemma head_filter_Some {A} (p : A → bool) l x :
  head (List.filter p l) = Some x → x ∈ l ∧ p x = true.
Proof.
  induction l as [|y l IH]; simpl; [done|].
  destruct (p y) eqn:Hy; simpl.
  - intros [= ->]. split; [by left|done].
  - intros [? ?]%IH. split; [by right|done].
Qed.

Lemma head_filter_None {A} (p : A → bool) l :
  head (List.filter p l) = None → ∀ x, x ∈ l → p x = false.
Proof.
  induction l as [|y l IH]; simpl; [by intros _ x ?%elem_of_nil|].
  destruct (p y) eqn:Hy; simpl; [done|].
  intros Hn x [->|Hx]%elem_of_cons; [done|by apply IH].
Qed.

Lemma head_take_1 {A} (l : list A) : head (take 1 l) = head l.
Proof. by destruct l. Qed.

(** ** Page windows *)



Lemma window_elem_of skip limit (l : table) r :
  r ∈ window skip limit l → r ∈ l.
Proof.
  intros Hr. apply (subseteq_drop (Z.to_nat skip)).
  by apply (subseteq_take (Z.to_nat limit)).
Qed.

Lemma unique_ids_filter p (l : table) :
  unique_ids l → unique_ids (List.filter p l).
Proof.
  unfold unique_ids. induction l as [|r l IH]; simpl; [done|].
  rewrite !NoDup_cons. intros [Hr Hl].
  assert (∀ x, x ∈ row_id <$> List.filter p l → x ∈ row_id <$> l) as Hsub.
  { intros x (r' & -> & Hin)%list_elem_of_fmap.
    apply list_elem_of_fmap. exists r'. split; [done|].
    by apply filter_elem_of in Hin as [? _]. }
  destruct (p r); simpl; [|by apply IH].
  rewrite NoDup_cons. split; [|by apply IH]. intros ?%Hsub. done.
Qed.

Lemma unique_ids_perm (l l' : table) : l ≡ₚ l' → unique_ids l → unique_ids l'.
Proof. unfold unique_ids. by intros ->. Qed.

Lemma unique_ids_window skip limit (l : table) :
  unique_ids l → unique_ids (window skip limit l).
Proof.
  unfold unique_ids, window. intros Hu.
  eapply sublist_NoDup; [exact Hu|].
  apply fmap_sublist. etrans; [apply sublist_take|apply sublist_drop].
Qed.

Lemma unique_ids_inj (rows : table) r r' :
  unique_ids rows → r ∈ rows → r' ∈ rows → row_id r = row_id r' → r = r'.
Proof.
  unfold unique_ids. induction rows as [|x rows IH]; [by intros _ ?%elem_of_nil|].
  rewrite fmap_cons, NoDup_cons. intros [Hx Hu].
  intros [->|Hr]%elem_of_cons [->|Hr']%elem_of_cons Heq; try done.
  - destruct Hx. rewrite Heq. apply list_elem_of_fmap. by exists r'.
  - destruct Hx. rewrite <- Heq. apply list_elem_of_fmap. by exists r.
  - by apply IH.
Qed.


(** What [cut] returns when it returns. *)
Lemma cut_page skip limit (l page : table) :
  cut skip limit l = inr page →
  int64 skip = true ∧ int64 limit = true ∧ 0 ≤ skip ∧ 0 ≤ limit ∧
  page = window skip limit l.
Proof.
  unfold cut.
  destruct (int64 skip) eqn:H1; [|done]. destruct (int64 limit) eqn:H2; [|done].
  destruct (skip <? 0) eqn:H3; [done|]. destruct (limit <? 0) eqn:H4; [done|].
  cbn. intros [= <-]. apply Z.ltb_ge in H3, H4. done.
Qed.

Lemma cut_returns skip limit (l : table) :
  int64 skip = true → int64 limit = true → 0 ≤ skip → 0 ≤ limit →
  cut skip limit l = inr (window skip limit l).
Proof.
  intros H1 H2 H3%Z.ltb_ge H4%Z.ltb_ge. unfold cut.
  by rewrite H1, H2, H3, H4.
Qed.

Lemma int64_bounds n :
  int64 n = true ↔ -9223372036854775808 ≤ n ≤ 9223372036854775807.
Proof.
  unfold int64. split.
  - intros [?%Z.leb_le ?%Z.leb_le]%andb_true_iff. done.
  - intros [? ?]. apply andb_true_iff. split; by apply Z.leb_le.
Qed.

(** ** What a SELECT with OFFSET and LIMIT returns *)

Lemma run_select_cut db args q le oe skip limit :
  sel_limit q = Some le → sel_offset q = Some oe →
  eval db args ∅ le = VInt limit → eval db args ∅ oe = VInt skip →
  run_select args q db =
  match db !! sel_from q with
  | None => inl (UndefinedTable (sel_from q))
  | Some rows =>
      cut skip limit
        (order_rows db args (sel_order_by q)
           (List.filter (passes db args (sel_where q)) rows))
  end.
Proof.
  intros Hl Ho Hle Hoe. unfold run_select, row_count, cut.
  rewrite Hl, Ho, Hle, Hoe.
  destruct (db !! sel_from q); [|done].
  destruct (int64 skip); [|done]. destruct (int64 limit); [|done].
  cbn. destruct (skip <? 0); [done|]. by destruct (limit <? 0).
Qed.

(** ** The operations, in full *)

Lemma get_companies_generic C :
  crud.get_companies C = list_query C company_fields.
Proof. reflexivity. Qed.

Lemma get_vendors_generic C :
  crud.get_vendors C = list_query C vendor_fields.
Proof. reflexivity. Qed.

Lemma get_sows_generic C :
  crud.get_sows C = list_query C sow_fields.
Proof. reflexivity. Qed.

Lemma get_invoices_generic C :
  crud.get_invoices C = list_query C invoice_fields.
Proof. reflexivity. Qed.

Lemma orm_list_ops_generic CC V S I C fields op :
  (C, fields, op) ∈ orm_list_ops CC V S I → op = list_query C fields.
Proof.
  unfold orm_list_ops. rewrite !elem_of_cons, elem_of_nil.
  intros [H|[H|[H|[H|[]]]]]; by simplify_eq.
Qed.

Lemma orm_get_ops_generic CC V S I C op :
  (C, op) ∈ orm_get_ops CC V S I →
  op = fun n => first (filter_ (db_query C)
                         (Eq (attr C "id") (Lit (VInt n)))).
Proof.
  unfold orm_get_ops. rewrite !elem_of_cons, elem_of_nil.
  intros [H|[H|[H|[H|[]]]]]; by simplify_eq.
Qed.

(** The rows a list operation orders and cuts. *)
Lemma planned_query C fields skip limit (p : sort_plan) search db :
  (∀ e, p ≠ Fails e) →
  execute_query
    {| q_entity := C; q_criteria := criteria fields search;
       q_ordering := (fun t => OrderExpr t.1 t.2) <$> plan_terms p;
       q_offset := Some skip; q_limit := Some limit |} db =
  (match db !! tablename C with
   | None => inl (DBAPIError (UndefinedTable (tablename C)))
   | Some rows =>
       match cut skip limit
               (order_rows db [] (plan_terms p)
                  (List.filter (matches db fields search) rows)) with
       | inl e => inl (DBAPIError e)
       | inr page => inr page
       end
   end, db).
Proof.
  intros Hp. unfold execute_query, compile.
  cbn [q_ordering q_entity q_criteria q_limit q_offset].
  assert (compile_ordering ((fun t => OrderExpr t.1 t.2) <$> plan_terms p)
          = inr (plan_terms p)) as ->.
  { destruct p as [|e d|e]; [done|done|by destruct (Hp e)]. }
  unfold run, execute.
  rewrite (run_select_cut db [] _ (Lit (VInt limit)) (Lit (VInt skip))
             skip limit) by done.
  cbn [sel_from sel_where sel_order_by].
  destruct (db !! tablename C) as [rows|]; [|done].
  rewrite (filter_pointwise _ (matches db fields search))
    by apply passes_matches.
  by destruct (cut _ _ _).
Qed.

Lemma list_query_outcome C fields skip limit sortby search db :
  list_query C fields skip limit sortby search db =
  (match plan C sortby with
   | Fails e => inl e
   | p =>
       match db !! tablename C with
       | None => inl (DBAPIError (UndefinedTable (tablename C)))
       | Some rows =>
           match cut skip limit
                   (order_rows db [] (plan_terms p)
                      (List.filter (matches db fields search) rows)) with
           | inl e => inl (DBAPIError e)
           | inr page => inr page
           end
       end
   end, db).
Proof.
  assert (∀ p, (∀ e, p ≠ Fails e) →
    all (limit_ (offset
      {| q_entity := C; q_criteria := criteria fields search;
         q_ordering := (fun t => OrderExpr t.1 t.2) <$> plan_terms p;
         q_offset := None; q_limit := None |} skip) limit) db =
    (match db !! tablename C with
     | None => inl (DBAPIError (UndefinedTable (tablename C)))
     | Some rows =>
         match cut skip limit
                 (order_rows db [] (plan_terms p)
                    (List.filter (matches db fields search) rows)) with
         | inl e => inl (DBAPIError e)
         | inr page => inr page
         end
     end, db)) as Hall.
  { intros p Hp. apply (planned_query C fields skip limit p search db Hp). }
  assert (db_query C = {| q_entity := C; q_criteria := criteria fields None;
            q_ordering := []; q_offset := None; q_limit := None |}) as Hq0
    by done.
  unfold list_query, plan.
  set (query := if_truthy search _ (db_query C)).
  assert (query = {| q_entity := C; q_criteria := criteria fields search;
            q_ordering := []; q_offset := None; q_limit := None |}) as ->.
  { unfold query. by destruct search as [[|]|]. }
  destruct sortby as [[|c s]|]; cbn [if_truthy];
    [apply (Hall Unsorted); done| |apply (Hall Unsorted); done].
  destruct (split ":" (String c s)) as [|a [|b [|]]]; cbn [unpack2];
    try (apply (Hall Unsorted); done).
  unfold mbind, M_bind, try_except_ValueError, getattr, desc, asc,
    direction_of.
  cbn [mret M_ret raise].
  destruct (bool_decide (a ∈ columns C)) eqn:Hin.
  { destruct (String.eqb b "desc"); cbn;
      [apply (Hall (SortedOn (Col a) Desc))|apply (Hall (SortedOn (Col a) Asc))];
      done. }
  destruct (assoc a (other_attributes C)) as [[e|e|e]|].
  - destruct (String.eqb b "desc"); cbn;
      [apply (Hall (SortedOn e Desc))|apply (Hall (SortedOn e Asc))]; done.
  - destruct (String.eqb b "desc"); cbn; destruct e; cbn;
      try done; apply (Hall Unsorted); done.
  - destruct (String.eqb b "desc"); cbn; by destruct e.
  - by destruct (String.eqb b "desc").
Qed.

(** What a returned page is made of. *)
Lemma list_query_returned C fields skip limit sortby search db page :
  (list_query C fields skip limit sortby search db).1 = inr page →
  ∃ rows, db !! tablename C = Some rows ∧
    int64 skip = true ∧ int64 limit = true ∧ 0 ≤ skip ∧ 0 ≤ limit ∧
    (∀ e, plan C sortby ≠ Fails e) ∧
    page = window skip limit
             (order_rows db [] (plan_terms (plan C sortby))
                (List.filter (matches db fields search) rows)).
Proof.
  rewrite list_query_outcome. cbn [fst].
  assert (∀ rows, match cut skip limit
                    (order_rows db [] (plan_terms (plan C sortby))
                       (List.filter (matches db fields search) rows)) with
          | inl e => inl (DBAPIError e)
          | inr page => inr page
          end = inr page →
          int64 skip = true ∧ int64 limit = true ∧ 0 ≤ skip ∧ 0 ≤ limit ∧
          page = window skip limit
             (order_rows db [] (plan_terms (plan C sortby))
                (List.filter (matches db fields search) rows))) as Hcut.
  { intros rows. destruct (cut _ _ _) as [|page'] eqn:Hc; [done|].
    intros [= ->]. by apply cut_page. }
  destruct (plan C sortby) eqn:Hp; [| |done];
    (destruct (db !! tablename C) as [rows|]; [|done]);
    intros (? & ? & ? & ? & ?)%Hcut; exists rows; by repeat split.
Qed.

(** With the table in place, row counts in range and not negative, and
    a sort request that does not fail, a list operation returns its
    page. *)
Lemma list_query_returns C fields skip limit sortby search db rows :
  db !! tablename C = Some rows →
  int64 skip = true → int64 limit = true → 0 ≤ skip → 0 ≤ limit →
  (∀ e, plan C sortby ≠ Fails e) →
  list_query C fields skip limit sortby search db =
  (inr (window skip limit
          (order_rows db [] (plan_terms (plan C sortby))
             (List.filter (matches db fields search) rows))), db).
Proof.
  intros Hdb H1 H2 H3 H4 Hp. rewrite list_query_outcome, Hdb.
  destruct (plan C sortby) as [|e d|e]; [| |by destruct (Hp e)];
    by rewrite cut_returns.
Qed.

Lemma list_query_state C fields skip limit sortby search db :
  (list_query C fields skip limit sortby search db).2 = db.
Proof. by rewrite list_query_outcome. Qed.

Lemma first_by_id C n db :
  first (filter_ (db_query C) (Eq (attr C "id") (Lit (VInt n)))) db =
  (match db !! tablename C with
   | None => inl (DBAPIError (UndefinedTable (tablename C)))
   | Some rows =>
       inr (head (List.filter
                    (passes db [] [Eq (Col "id") (Lit (VInt n))]) rows))
   end, db).
Proof.
  unfold first, execute_query, compile, run, execute, run_select, mbind,
    M_bind.
  cbn [compile_ordering limit_ filter_ db_query q_entity q_criteria
       q_ordering q_limit q_offset sel_from sel_where sel_order_by
       sel_limit sel_offset fmap option_fmap option_map app attr
       row_count eval order_rows foldr].
  destruct (db !! tablename C) as [rows|]; [|done].
  cbn. by rewrite head_take_1.
Qed.

Lemma passes_id_eq db i (r : row) :
  passes db [VInt i] [Eq (Col "id") (Param 1)] r = true ↔ row_id r = VInt i.
Proof.
  unfold passes, row_id. cbn [forallb eval lookup]. rewrite andb_true_r.
  change (default VNull ([VInt i] !! pred 1)) with (VInt i).
  destruct (field r "id") as [|b|z|s]; simpl; try done.
  destruct (z =? i) eqn:Hz; simpl.
  - apply Z.eqb_eq in Hz as ->. done.
  - apply Z.eqb_neq in Hz. split; [done|]. by intros [= ->].
Qed.

Lemma passes_id_lit db n (r : row) :
  passes db [] [Eq (Col "id") (Lit (VInt n))] r = true ↔ row_id r = VInt n.
Proof. apply (passes_id_eq db n r). Qed.

Lemma first_by_id_stored C db (rows : table) r n :
  db !! tablename C = Some rows → unique_ids rows → r ∈ rows →
  row_id r = VInt n →
  first (filter_ (db_query C) (Eq (attr C "id") (Lit (VInt n)))) db =
    (inr (Some r), db).
Proof.
  intros Hdb Hu Hr Hid. rewrite first_by_id, Hdb.
  destruct (head _) as [r'|] eqn:Hh.
  - apply head_filter_Some in Hh as [Hin Hp%passes_id_lit].
    rewrite (unique_ids_inj rows r r'); [done..|congruence].
  - apply (passes_id_lit db) in Hid.
    by rewrite (head_filter_None _ _ Hh r Hr) in Hid.
Qed.

(** Ordering by a bound value compares every row as equal to every
    other: the rows stay in stored order. *)
Lemma order_by_param db args (rows : table) :
  order_rows db args [(Param 1, Asc)] rows = rows.
Proof.
  simpl. apply sort_by_constant. intros r1 r2.
  unfold term_leb. simpl. apply value_leb_refl.
Qed.

Lemma list_invoices_outcome skip limit sortby search db :
  invoices.list_invoices skip limit sortby search db =
  (if int64 limit && int64 skip then
     match db !! "invoices" with
     | None => inl (PostgresError (UndefinedTable "invoices"))
     | Some rows =>
         match cut skip limit rows with
         | inl e => inl (PostgresError e)
         | inr page =>
             inr {| invoices.data := page;
                    invoices.total := Z.of_nat (length page);
                    invoices.skip := skip;
                    invoices.limit := limit |}
         end
     end
   else inl DataError, db).
Proof.
  unfold invoices.list_invoices, fetch, send, mbind, M_bind.
  set (args := [VText _; VInt limit; VInt skip]).
  assert (forallb (fun b : bool => b)
            (imap (fun i => encodable db invoices.list_invoices_sql (S i))
               args) = int64 limit && int64 skip) as ->.
  { unfold args. cbn. by rewrite andb_true_r. }
  destruct (int64 limit && int64 skip); [|done].
  unfold run, execute.
  rewrite (run_select_cut db args _ (Param 2) (Param 3) skip limit) by done.
  cbn [invoices.list_invoices_sql sel_from sel_where sel_order_by].
  destruct (db !! "invoices") as [rows|]; [|done].
  rewrite filter_all_true, order_by_param by done.
  destruct (cut skip limit rows); [done|].
  unfold invoices.Invoice. by rewrite list_fmap_id.
Qed.

Lemma read_invoice_outcome invoice_id db :
  invoices.read_invoice invoice_id db =
  (if in_range (column_type db "invoices" "id") invoice_id then
     match db !! "invoices" with
     | None => inl (PostgresError (UndefinedTable "invoices"))
     | Some rows =>
         match head (List.filter
                       (passes db [VInt invoice_id] [Eq (Col "id") (Param 1)])
                       rows) with
         | None => inl (HTTPException 404 (not_found_detail invoice_id))
         | Some r => inr r
         end
     end
   else inl DataError, db).
Proof.
  unfold invoices.read_invoice, fetchrow, send, mbind, M_bind.
  assert (forallb (fun b : bool => b)
            (imap (fun i => encodable db invoices.read_invoice_sql (S i))
               [VInt invoice_id]) =
          in_range (column_type db "invoices" "id") invoice_id) as ->.
  { cbn. by rewrite andb_true_r. }
  destruct (in_range _ invoice_id); [|done].
  unfold run, execute, run_select.
  cbn [invoices.read_invoice_sql sel_from sel_where sel_order_by sel_limit
       sel_offset row_count is_negative order_rows foldr default].
  destruct (db !! "invoices") as [rows|]; [|done].
  cbn. by destruct (head _).
Qed.

(** The lookups the examples use. *)
Lemma acme_db_companies : acme_db !! "companies" = Some acme_companies.
Proof. reflexivity. Qed.

Lemma acme_db_invoices : acme_db !! "invoices" = Some acme_invoices.
Proof. reflexivity. Qed.

Lemma acme_db_unique_ids t rows : acme_db !! t = Some rows → unique_ids rows.
Proof.
  revert t rows.
  change (map_Forall (fun _ rows => unique_ids rows) (tables acme_db)).
  unfold unique_ids. apply (bool_decide_unpack _). by vm_compute.
Qed.


(** ** Pagination *)




(** ** Search *)




(** ** Sorting by a column *)

Lemma plan_pair C col dir :
  colon_free col = true → colon_free dir = true →
  plan C (Some (col +:+ ":" +:+ dir)) =
  if bool_decide (col ∈ columns C)
  then SortedOn (Col col) (direction_of dir)
  else match assoc col (other_attributes C) with
       | Some u => plan_of_use u (direction_of dir)
       | None => Fails (AttributeError col)
       end.
Proof.
  intros Hc Hd. unfold plan.
  assert (if_truthy (A := sort_plan) (Some (col +:+ ":" +:+ dir)) =
          fun th _ => th (col +:+ ":" +:+ dir)) as ->.
  { destruct col; reflexivity. }
  by rewrite split_pair.
Qed.

Lemma plan_valid_column C col dir :
  colon_free col = true → colon_free dir = true → col ∈ columns C →
  plan C (Some (col +:+ ":" +:+ dir)) = SortedOn (Col col) (direction_of dir).
Proof.
  intros Hc Hd Hin. rewrite plan_pair by done.
  by rewrite bool_decide_eq_true_2.
Qed.

Lemma list_query_sorted C fields skip limit col dir search db :
  colon_free col = true → colon_free dir = true → col ∈ columns C →
  sorted_page C col dir skip limit db
    (list_query C fields skip limit (Some (col +:+ ":" +:+ dir)) search db).1.
Proof.
  intros Hc Hd Hin.
  pose proof (plan_valid_column C col dir Hc Hd Hin) as Hplan.
  split.
  - intros page (rows & _ & _ & _ & _ & _ & _ & ->)%list_query_returned.
    rewrite Hplan. cbn [plan_terms order_rows foldr].
    set (kept := List.filter _ rows). unfold direction_of.
    split; intros Hdir.
    + apply String.eqb_eq in Hdir. rewrite Hdir.
      apply Sorted_take, Sorted_drop.
      apply (sort_by_sorted (term_leb db [] (Col col, Desc))).
      intros r1 r2. apply term_leb_total.
    + apply String.eqb_neq in Hdir. rewrite Hdir.
      apply Sorted_take, Sorted_drop.
      apply (sort_by_sorted (term_leb db [] (Col col, Asc))).
      intros r1 r2. apply term_leb_total.
  - intros [rows Hdb] Hs Hsi Hl Hli. eexists.
    rewrite (list_query_returns _ _ _ _ _ _ _ rows); [done..|].
    intros e. by rewrite Hplan.
Qed.

(** C3.  For every list operation of [crud] with
    [sortby = "<column>:<direction>"] where the column is a mapped column
    of the entity: when the direction is exactly ["desc"] the returned
    page is non-increasing on that column, and for any other direction
    (a typo, the empty string, ["DESC"]) it is non-decreasing; the page
    is returned whenever the table exists and [skip], [limit] are not
    negative and in the 64-bit range of the server.  On the companies
    Acme, Acme Corp, Zenith, the search for ["acme"] sorted by
    ["company_name:desc"] returns ids 2, 1. *)
Theorem sortby_orders_page
    (CC V S I : OrmClass) (db : database) (skip limit : Z)
    (col dir : string) (search : option string) :
  colon_free col = true → colon_free dir = true →
  (col ∈ columns CC →
   sorted_page CC col dir skip limit db
     (crud.get_companies CC skip limit (Some (col +:+ ":" +:+ dir)) search
        db).1) ∧
  (col ∈ columns V →
   sorted_page V col dir skip limit db
     (crud.get_vendors V skip limit (Some (col +:+ ":" +:+ dir)) search
        db).1) ∧
  (col ∈ columns S →
   sorted_page S col dir skip limit db
     (crud.get_sows S skip limit (Some (col +:+ ":" +:+ dir)) search db).1) ∧
  (col ∈ columns I →
   sorted_page I col dir skip limit db
     (crud.get_invoices I skip limit (Some (col +:+ ":" +:+ dir)) search
        db).1) ∧
  ids (crud.get_companies company_cls 0 10 (Some "company_name:desc")
         (Some "acme") acme_db).1 = inr [VInt 2; VInt 1].
Proof.
  intros Hc Hd.
  rewrite get_companies_generic, get_vendors_generic, get_sows_generic,
    get_invoices_generic.
  do 4 (split; [intros Hin; by apply list_query_sorted|]).
  reflexivity.
Qed.

Lemma sortby_orders_page_witness :
  (colon_free "company_name" = true ∧ colon_free "DESC" = true ∧
   "company_name" ∈ columns company_cls) ∧
  ids (crud.get_companies company_cls 0 10 (Some "company_name:DESC") None
         acme_db).1 = inr [VInt 1; VInt 2; VInt 3] ∧
  sorted_page company_cls "company_name" "DESC" 0 10 acme_db
    (crud.get_companies company_cls 0 10 (Some "company_name:DESC") None
       acme_db).1.
Proof.
  assert (colon_free "company_name" = true ∧ colon_free "DESC" = true ∧
          "company_name" ∈ columns company_cls) as H.
  { split; [done|]. split; [done|]. right. left. }
  split; [exact H|]. split; [reflexivity|].
  destruct H as (H1 & H2 & H3).
  exact (proj1 (sortby_orders_page company_cls vendor_cls sow_cls invoice_cls
                  acme_db 0 10 "company_name" "DESC" None H1 H2) H3).
Defined.

(** ** A sort request that does not parse *)

Lemma plan_unparsed C sortby :
  length (split ":" sortby) ≠ 2%nat → plan C (Some sortby) = Unsorted.
Proof.
  intros Hlen. unfold plan. destruct sortby as [|c s]; [done|].
  cbn [if_truthy].
  by destruct (split ":" (String c s)) as [|a [|b [|]]].
Qed.

Lemma list_query_unparsed C fields skip limit sortby search db :
  length (split ":" sortby) ≠ 2%nat →
  list_query C fields skip limit (Some sortby) search db =
  list_query C fields skip limit None search db.
Proof.
  intros Hlen. rewrite !list_query_outcome.
  by rewrite (plan_unparsed C sortby Hlen).
Qed.

(** C4.  For every list operation of [crud], a [sortby] string that does
    not split into exactly two parts on [":"] (no colon, or two or more
    colons) gives exactly the outcome of the call without [sortby]: the
    sort request is ignored and no error is raised for it. *)
Theorem malformed_sortby_is_ignored
    (CC V S I : OrmClass) (db : database) (skip limit : Z)
    (sortby : string) (search : option string) :
  length (split ":" sortby) ≠ 2%nat →
  crud.get_companies CC skip limit (Some sortby) search db =
    crud.get_companies CC skip limit None search db ∧
  crud.get_vendors V skip limit (Some sortby) search db =
    crud.get_vendors V skip limit None search db ∧
  crud.get_sows S skip limit (Some sortby) search db =
    crud.get_sows S skip limit None search db ∧
  crud.get_invoices I skip limit (Some sortby) search db =
    crud.get_invoices I skip limit None search db.
Proof.
  intros Hlen.
  rewrite get_companies_generic, get_vendors_generic, get_sows_generic,
    get_invoices_generic.
  repeat split; by apply list_query_unparsed.
Qed.

Lemma malformed_sortby_is_ignored_witness :
  (length (split ":" "bogus") ≠ 2%nat ∧
   length (split ":" "company_name:desc:x") ≠ 2%nat) ∧
  crud.get_companies company_cls 0 10 (Some "bogus") None acme_db =
    crud.get_companies company_cls 0 10 None None acme_db ∧
  crud.get_sows sow_cls 0 10 (Some "company_name:desc:x") None acme_db =
    crud.get_sows sow_cls 0 10 None None acme_db.
Proof.
  assert (length (split ":" "bogus") ≠ 2%nat ∧
          length (split ":" "company_name:desc:x") ≠ 2%nat) as H
    by (split; by vm_compute).
  split; [exact H|]. destruct H as [H1 H2]. split.
  - exact (proj1 (malformed_sortby_is_ignored company_cls vendor_cls sow_cls
                    invoice_cls acme_db 0 10 "bogus" None H1)).
  - exact (proj1 (proj2 (proj2 (malformed_sortby_is_ignored company_cls
                    vendor_cls sow_cls invoice_cls acme_db 0 10
                    "company_name:desc:x" None H2)))).
Defined.

(** ** The ORDER BY of [list_invoices] *)

(** C5.  [list_invoices] passes the [sortby] string (or ['id']) as the
    bound value of [$1] in the ORDER BY position of its fixed statement,
    not as a column: for every [sortby] the outcome is that of the call
    without [sortby], and the rows of a response are in stored order,
    the [skip]/[limit] window of the table as it is; that response is
    returned whenever the table exists and [skip], [limit] are not
    negative and in the 64-bit range. *)
Theorem list_invoices_ignores_sortby
    (db : database) (skip limit : Z) (sortby : string)
    (search : option string) :
  invoices.list_invoices skip limit (Some sortby) search db =
    invoices.list_invoices skip limit None search db ∧
  (∀ rows resp,
     db !! "invoices" = Some rows →
     (invoices.list_invoices skip limit (Some sortby) search db).1
       = inr resp →
     invoices.data resp = window skip limit rows) ∧
  (∀ rows, db !! "invoices" = Some rows →
     0 ≤ skip → int64 skip = true → 0 ≤ limit → int64 limit = true →
     ∃ resp,
       (invoices.list_invoices skip limit (Some sortby) search db).1
         = inr resp).
Proof.
  rewrite !list_invoices_outcome. split; [done|]. split.
  - intros rows resp Hdb. rewrite Hdb. cbn [fst].
    destruct (int64 limit && int64 skip); [|done].
    destruct (cut skip limit rows) as [|page] eqn:Hc; [done|].
    apply cut_page in Hc as (_ & _ & _ & _ & ->). by intros [= <-].
  - intros rows Hdb Hs Hsi Hl Hli. rewrite Hdb, Hli, Hsi. cbn [fst andb].
    rewrite cut_returns by done. by eexists.
Qed.

Lemma list_invoices_ignores_sortby_witness :
  (acme_db !! "invoices" = Some acme_invoices ∧
   0 ≤ 0 ∧ int64 0 = true ∧ 0 ≤ 10 ∧ int64 10 = true) ∧
  ∃ resp,
    (invoices.list_invoices 0 10 (Some "invoice_number") None acme_db).1
      = inr resp ∧
    invoices.data resp = window 0 10 acme_invoices.
Proof.
  assert (acme_db !! "invoices" = Some acme_invoices ∧
          0 ≤ 0 ∧ int64 0 = true ∧ 0 ≤ 10 ∧ int64 10 = true) as H.
  { split; [exact acme_db_invoices|]. repeat split; done. }
  split; [exact H|]. destruct H as (H1 & H2 & H3 & H4 & H5).
  destruct (proj2 (proj2 (list_invoices_ignores_sortby acme_db 0 10
                            "invoice_number" None)) _ H1 H2 H3 H4 H5)
    as [resp Hresp].
  exists resp. split; [exact Hresp|].
  exact (proj1 (proj2 (list_invoices_ignores_sortby acme_db 0 10
                         "invoice_number" None)) _ resp H1 Hresp).
Defined.

(** ** Looking up one invoice *)

(** C6, as stated, fails: the driver refuses an id outside the range
    of the type of the id column before any statement is sent.  No
    invoice has the id 2^63, which is outside the range of every integer
    type, and [read_invoice] fails there with the driver's DataError,
    not with the 404. *)
Lemma read_invoice_out_of_range_counterexample :
  (∀ r, r ∈ acme_invoices → row_id r ≠ VInt 9223372036854775808) ∧
  (invoices.read_invoice 9223372036854775808 acme_db).1 = inl DataError.
Proof.
  split; [|reflexivity].
  intros r Hr.
  apply elem_of_cons in Hr as [->|Hr]; [by vm_compute|].
  apply elem_of_cons in Hr as [->|Hr]; [by vm_compute|].
  by apply elem_of_nil in Hr.
Qed.

(** C6, amended.  With the invoices table in place, [read_invoice]
    returns a stored invoice whose id is the requested [invoice_id] when
    one exists; when none exists and [invoice_id] is in the range of the
    integer type of the id column, it fails with the 404 exception whose
    detail contains the decimal text of the requested id, never with
    another error and never with a result.  [GET /invoices/999] on a
    table without invoice 999 gives the 404 with 999 in its detail. *)
Theorem read_invoice_found_or_404
    (db : database) (rows : table) (invoice_id : Z) :
  db !! "invoices" = Some rows →
  ((∃ r, r ∈ rows ∧ row_id r = VInt invoice_id) →
   ∃ r, (invoices.read_invoice invoice_id db).1 = inr r ∧
        r ∈ rows ∧ row_id r = VInt invoice_id) ∧
  (in_range (column_type db "invoices" "id") invoice_id = true →
   (∀ r, r ∈ rows → row_id r ≠ VInt invoice_id) →
   ∃ detail,
     (invoices.read_invoice invoice_id db).1 =
       inl (HTTPException 404 detail) ∧
     contains (str invoice_id) detail = true) ∧
  (invoices.read_invoice 999 acme_db).1 =
    inl (HTTPException 404 "An invoice with an id of 999 was not found.").
Proof.
  intros Hdb. rewrite read_invoice_outcome, Hdb. cbn [fst].
  split; [|split; [|reflexivity]].
  - intros (r & Hr & Hid).
    rewrite (stored_integer_in_range db "invoices" rows r "id" invoice_id)
      by done.
    destruct (head _) as [r'|] eqn:Hhead.
    + apply head_filter_Some in Hhead as [Hin Hp].
      exists r'. by rewrite <- (passes_id_eq db).
    + apply head_filter_None with (x := r) in Hhead; [|done].
      apply (passes_id_eq db) in Hid. congruence.
  - intros -> Hnone.
    destruct (head _) as [r'|] eqn:Hhead.
    + apply head_filter_Some in Hhead as [Hin Hp%passes_id_eq].
      by destruct (Hnone r').
    + eexists. split; [done|]. apply contains_app.
Qed.

Lemma read_invoice_found_or_404_witness :
  acme_db !! "invoices" = Some acme_invoices ∧
  (∃ r, (invoices.read_invoice 2 acme_db).1 = inr r ∧
        r ∈ acme_invoices ∧ row_id r = VInt 2) ∧
  (∃ detail,
     (invoices.read_invoice 999 acme_db).1 = inl (HTTPException 404 detail) ∧
     contains (str 999) detail = true).
Proof.
  pose proof acme_db_invoices as H.
  split; [exact H|]. split.
  - apply (proj1 (read_invoice_found_or_404 acme_db _ 2 H)).
    exists (mk_invoice 2 "INV-A" "open"). split; [|reflexivity].
    right. left.
  - apply (proj1 (proj2 (read_invoice_found_or_404 acme_db _ 999 H)));
      [reflexivity|].
    intros r Hr.
    apply elem_of_cons in Hr as [->|Hr]; [by vm_compute|].
    apply elem_of_cons in Hr as [->|Hr]; [by vm_compute|].
    by apply elem_of_nil in Hr.
Defined.

(** ** An unknown sort column *)

(** C7.  For every list operation of [crud] with a well-formed
    [sortby = "<column>:<direction>"] whose column is not an attribute
    of the entity (neither a mapped column nor anything else the class
    has), the call raises the AttributeError of the attribute lookup:
    the handler of the sort parse catches ValueError only, so the error
    reaches the caller, before any statement is run. *)
Theorem unknown_sort_column_raises
    (CC V S I : OrmClass) (db : database) (skip limit : Z)
    (col dir : string) (search : option string) :
  colon_free col = true → colon_free dir = true →
  (¬ is_attribute CC col →
   crud.get_companies CC skip limit (Some (col +:+ ":" +:+ dir)) search db
     = (inl (AttributeError col), db)) ∧
  (¬ is_attribute V col →
   crud.get_vendors V skip limit (Some (col +:+ ":" +:+ dir)) search db
     = (inl (AttributeError col), db)) ∧
  (¬ is_attribute S col →
   crud.get_sows S skip limit (Some (col +:+ ":" +:+ dir)) search db
     = (inl (AttributeError col), db)) ∧
  (¬ is_attribute I col →
   crud.get_invoices I skip limit (Some (col +:+ ":" +:+ dir)) search db
     = (inl (AttributeError col), db)).
Proof.
  intros Hc Hd.
  assert (∀ C fields, ¬ is_attribute C col →
    list_query C fields skip limit (Some (col +:+ ":" +:+ dir)) search db
      = (inl (AttributeError col), db)) as Hgen.
  { intros C fields Hno. rewrite list_query_outcome, plan_pair by done.
    rewrite bool_decide_eq_false_2 by (intros ?; apply Hno; by left).
    destruct (assoc col (other_attributes C)) as [u|] eqn:Hu; [|done].
    destruct Hno. right. by rewrite Hu. }
  rewrite get_companies_generic, get_vendors_generic, get_sows_generic,
    get_invoices_generic.
  repeat split; apply Hgen.
Qed.

Lemma unknown_sort_column_raises_witness :
  (colon_free "bogus" = true ∧ colon_free "desc" = true ∧
   ¬ is_attribute company_cls "bogus") ∧
  crud.get_companies company_cls 0 10 (Some "bogus:desc") None acme_db
    = (inl (AttributeError "bogus"), acme_db).
Proof.
  assert (colon_free "bogus" = true ∧ colon_free "desc" = true ∧
          ¬ is_attribute company_cls "bogus") as H.
  { split; [done|]. split; [done|]. intros [Hin|Hsome].
    - revert Hin. apply (bool_decide_unpack _). by vm_compute.
    - by destruct Hsome. }
  split; [exact H|]. destruct H as (H1 & H2 & H3).
  exact (proj1 (unknown_sort_column_raises company_cls vendor_cls sow_cls
                  invoice_cls acme_db 0 10 "bogus" "desc" None H1 H2) H3).
Defined.

(** ** The response of the collection endpoint *)

(** C8.  In every response of the list endpoint [list_invoices],
    [total] is the number of items of [data] of that same response (the
    size of the returned page), and [skip] and [limit] are the request's
    [skip] and [limit] unchanged. *)
Theorem list_response_total_is_page_size
    (db : database) (skip limit : Z) (sortby search : option string)
    (resp : invoices.ListResponse) :
  (invoices.list_invoices skip limit sortby search db).1 = inr resp →
  invoices.total resp = Z.of_nat (length (invoices.data resp)) ∧
  invoices.skip resp = skip ∧
  invoices.limit resp = limit.
Proof.
  unfold invoices.list_invoices, mbind, M_bind.
  destruct (fetch _ _ db) as [[e|rows] db']; cbn [fst]; [done|].
  by intros [= <-].
Qed.

Lemma list_response_total_is_page_size_witness :
  ∃ resp,
    (invoices.list_invoices 1 10 None None acme_db).1 = inr resp ∧
    invoices.data resp = [mk_invoice 2 "INV-A" "open"] ∧
    invoices.total resp = Z.of_nat (length (invoices.data resp)) ∧
    invoices.skip resp = 1 ∧
    invoices.limit resp = 10.
Proof.
  eexists. split; [reflexivity|]. split; [reflexivity|].
  apply (list_response_total_is_page_size acme_db 1 10 None None).
  reflexivity.
Defined.

(** ** No operation writes *)

Lemma first_state q db : (first q db).2 = db.
Proof.
  unfold first, execute_query, mbind, M_bind.
  destruct (compile (limit_ q 1)) as [e|s]; [done|].
  unfold run, execute. by destruct (run_select [] s db).
Qed.

(** C9.  Every operation of the CRUD module and of the invoice router
    is read-only: whatever its arguments and its outcome, the database
    after the call is the database before it. *)
Theorem operations_are_read_only
    (CC V S I : OrmClass) (db : database) (n skip limit : Z)
    (sortby search : option string) :
  (crud.get_company CC n db).2 = db ∧
  (crud.get_companies CC skip limit sortby search db).2 = db ∧
  (crud.get_vendor V n db).2 = db ∧
  (crud.get_vendors V skip limit sortby search db).2 = db ∧
  (crud.get_sow S n db).2 = db ∧
  (crud.get_sows S skip limit sortby search db).2 = db ∧
  (crud.get_invoice I n db).2 = db ∧
  (crud.get_invoices I skip limit sortby search db).2 = db ∧
  (invoices.list_invoices skip limit sortby search db).2 = db ∧
  (invoices.read_invoice n db).2 = db.
Proof.
  rewrite get_companies_generic, get_vendors_generic, get_sows_generic,
    get_invoices_generic.
  repeat split;
    try apply first_state; try apply list_query_state.
  - by rewrite list_invoices_outcome.
  - by rewrite read_invoice_outcome.
Qed.

(** ** Empty strings *)

(** C10.  For every list operation of [crud], the empty string as
    [search] or as [sortby] behaves as [None]: the presence checks are
    truthiness tests, so the call equals the call with that argument
    left out. *)
Theorem empty_string_is_absent
    (CC V S I : OrmClass) (skip limit : Z) (sortby search : option string) :
  crud.get_companies CC skip limit (Some "") search =
    crud.get_companies CC skip limit None search ∧
  crud.get_companies CC skip limit sortby (Some "") =
    crud.get_companies CC skip limit sortby None ∧
  crud.get_vendors V skip limit (Some "") search =
    crud.get_vendors V skip limit None search ∧
  crud.get_vendors V skip limit sortby (Some "") =
    crud.get_vendors V skip limit sortby None ∧
  crud.get_sows S skip limit (Some "") search =
    crud.get_sows S skip limit None search ∧
  crud.get_sows S skip limit sortby (Some "") =
    crud.get_sows S skip limit sortby None ∧
  crud.get_invoices I skip limit (Some "") search =
    crud.get_invoices I skip limit None search ∧
  crud.get_invoices I skip limit sortby (Some "") =
    crud.get_invoices I skip limit sortby None.
Proof. repeat split; reflexivity. Qed.

(** * Further properties of the same operations *)

(** ** Lookups by id *)

(** X1.  Each lookup by id of [crud] ([get_company], [get_vendor],
    [get_sow], [get_invoice]), with its table in place, never raises: it
    returns a stored row whose id is the requested one, or [None], and
    [None] only when no stored row has that id. *)
Theorem get_by_id_returns_row_or_none
    (CC V S I C : OrmClass) (op : Z → M (option row))
    (db : database) (rows : table) (n : Z) :
  (C, op) ∈ orm_get_ops CC V S I →
  db !! tablename C = Some rows →
  ∃ o, op n db = (inr o, db) ∧
       match o with
       | Some r => r ∈ rows ∧ row_id r = VInt n
       | None => ∀ r, r ∈ rows → row_id r ≠ VInt n
       end.
Proof.
  intros ->%orm_get_ops_generic Hdb. rewrite first_by_id, Hdb.
  eexists. split; [done|].
  destruct (head _) as [r|] eqn:Hh.
  - apply head_filter_Some in Hh as [Hin Hp]. by rewrite <- (passes_id_lit db).
  - intros r Hr Hid. apply (passes_id_lit db) in Hid.
    by rewrite (head_filter_None _ _ Hh r Hr) in Hid.
Qed.

Lemma get_by_id_returns_row_or_none_witness :
  ((company_cls, crud.get_company company_cls)
     ∈ orm_get_ops company_cls vendor_cls sow_cls invoice_cls ∧
   acme_db !! tablename company_cls =
     Some [mk_company 1 "Acme"; mk_company 2 "Acme Corp";
           mk_company 3 "Zenith"]) ∧
  (crud.get_company company_cls 2 acme_db).1
    = inr (Some (mk_company 2 "Acme Corp")) ∧
  (crud.get_company company_cls 7 acme_db).1 = inr None ∧
  ∃ o, crud.get_company company_cls 7 acme_db = (inr o, acme_db) ∧
       match o with
       | Some r => r ∈ [mk_company 1 "Acme"; mk_company 2 "Acme Corp";
                        mk_company 3 "Zenith"] ∧ row_id r = VInt 7
       | None => ∀ r, r ∈ [mk_company 1 "Acme"; mk_company 2 "Acme Corp";
                           mk_company 3 "Zenith"] → row_id r ≠ VInt 7
       end.
Proof.
  assert ((company_cls, crud.get_company company_cls)
            ∈ orm_get_ops company_cls vendor_cls sow_cls invoice_cls ∧
          acme_db !! tablename company_cls =
            Some [mk_company 1 "Acme"; mk_company 2 "Acme Corp";
                  mk_company 3 "Zenith"]) as H.
  { split; [by left|exact acme_db_companies]. }
  split; [exact H|]. split; [reflexivity|].
  split; [reflexivity|].
  destruct H as [H1 H2].
  exact (get_by_id_returns_row_or_none company_cls vendor_cls sow_cls
           invoice_cls company_cls _ acme_db _ 7 H1 H2).
Defined.

(** X2.  Round trip of the lookups: when the ids of the table are
    pairwise distinct, looking up the id of a stored row returns that very
    row, for the four lookups of [crud] and for [read_invoice]. *)
Theorem lookup_of_stored_id_returns_the_row
    (CC V S I C : OrmClass) (op : Z → M (option row))
    (db : database) (rows : table) (r : row) (n : Z) :
  unique_ids rows → r ∈ rows → row_id r = VInt n →
  ((C, op) ∈ orm_get_ops CC V S I → db !! tablename C = Some rows →
   op n db = (inr (Some r), db)) ∧
  (db !! "invoices" = Some rows →
   invoices.read_invoice n db = (inr r, db)).
Proof.
  intros Hu Hr Hid. split.
  - intros ->%orm_get_ops_generic Hdb.
    by apply (first_by_id_stored C db rows).
  - intros Hdb. rewrite read_invoice_outcome, Hdb.
    rewrite (stored_integer_in_range db "invoices" rows r "id" n) by done.
    destruct (head _) as [r'|] eqn:Hh.
    + apply head_filter_Some in Hh as [Hin Hp%passes_id_eq].
      rewrite (unique_ids_inj rows r r'); [done..|congruence].
    + apply (passes_id_eq db n) in Hid.
      by rewrite (head_filter_None _ _ Hh r Hr) in Hid.
Qed.

Lemma lookup_of_stored_id_returns_the_row_witness :
  (unique_ids [mk_invoice 1 "INV-B" "paid"; mk_invoice 2 "INV-A" "open"] ∧
   mk_invoice 2 "INV-A" "open"
     ∈ [mk_invoice 1 "INV-B" "paid"; mk_invoice 2 "INV-A" "open"] ∧
   row_id (mk_invoice 2 "INV-A" "open") = VInt 2 ∧
   (invoice_cls, crud.get_invoice invoice_cls)
     ∈ orm_get_ops company_cls vendor_cls sow_cls invoice_cls ∧
   acme_db !! "invoices" =
     Some [mk_invoice 1 "INV-B" "paid"; mk_invoice 2 "INV-A" "open"]) ∧
  crud.get_invoice invoice_cls 2 acme_db
    = (inr (Some (mk_invoice 2 "INV-A" "open")), acme_db) ∧
  invoices.read_invoice 2 acme_db
    = (inr (mk_invoice 2 "INV-A" "open"), acme_db).
Proof.
  assert (unique_ids [mk_invoice 1 "INV-B" "paid"; mk_invoice 2 "INV-A" "open"] ∧
          mk_invoice 2 "INV-A" "open"
            ∈ [mk_invoice 1 "INV-B" "paid"; mk_invoice 2 "INV-A" "open"] ∧
          row_id (mk_invoice 2 "INV-A" "open") = VInt 2 ∧
          (invoice_cls, crud.get_invoice invoice_cls)
            ∈ orm_get_ops company_cls vendor_cls sow_cls invoice_cls ∧
          acme_db !! "invoices" =
            Some [mk_invoice 1 "INV-B" "paid"; mk_invoice 2 "INV-A" "open"])
    as H.
  { split; [apply (acme_db_unique_ids "invoices"), acme_db_invoices|].
    split; [right; left|]. split; [reflexivity|].
    split; [do 3 right; left|exact acme_db_invoices]. }
  split; [exact H|]. destruct H as (H1 & H2 & H3 & H4 & H5).
  destruct (lookup_of_stored_id_returns_the_row company_cls vendor_cls sow_cls
              invoice_cls invoice_cls (crud.get_invoice invoice_cls) acme_db
              _ _ 2 H1 H2 H3) as [Hg Hr].
  split; [exact (Hg H4 H5)|exact (Hr H5)].
Defined.



(** ** The collection endpoint of the invoices and the ORM path *)

(** X4.  [list_invoices] uses neither [sortby] nor [search]: whatever
    the two are, the outcome is the same and the page is the
    [skip]/[limit] window of all stored invoices, so that a search term
    filters nothing out. *)
Theorem list_invoices_ignores_search_and_sortby
    (db : database) (skip limit : Z)
    (sortby search sortby' search' : option string) :
  invoices.list_invoices skip limit sortby search db =
    invoices.list_invoices skip limit sortby' search' db ∧
  ∀ resp rows,
    (invoices.list_invoices skip limit sortby search db).1 = inr resp →
    db !! "invoices" = Some rows →
    invoices.data resp = window skip limit rows.
Proof.
  rewrite !list_invoices_outcome. split; [done|].
  intros resp rows Hr Hdb. rewrite Hdb in Hr. cbn [fst] in Hr.
  destruct (int64 limit && int64 skip); [|done].
  destruct (cut skip limit rows) as [|page] eqn:Hc; [done|].
  apply cut_page in Hc as (_ & _ & _ & _ & ->). by injection Hr as <-.
Qed.

Lemma list_invoices_ignores_search_and_sortby_witness :
  ∃ resp,
    (invoices.list_invoices 0 10 None (Some "paid") acme_db).1 = inr resp ∧
    invoices.data resp =
      window 0 10 [mk_invoice 1 "INV-B" "paid"; mk_invoice 2 "INV-A" "open"].
Proof.
  eexists. split; [reflexivity|].
  exact (proj2 (list_invoices_ignores_search_and_sortby acme_db 0 10 None
                  (Some "paid") None None) _ _ eq_refl acme_db_invoices).
Defined.



(** X6.  The [total] of a response of [list_invoices] is the size of the
    page, which is the smaller of [limit] and of what the collection
    holds beyond [skip]; it is the size of the collection only when the
    page reaches that far. *)
Theorem list_invoices_total_formula
    (db : database) (rows : table) (skip limit : Z)
    (sortby search : option string) (resp : invoices.ListResponse) :
  db !! "invoices" = Some rows →
  (invoices.list_invoices skip limit sortby search db).1 = inr resp →
  invoices.total resp = Z.min limit (Z.max 0 (Z.of_nat (length rows) - skip)).
Proof.
  intros Hdb. rewrite list_invoices_outcome, Hdb. cbn [fst].
  destruct (int64 limit && int64 skip); [|done].
  destruct (cut skip limit rows) as [|page] eqn:Hc; [done|].
  apply cut_page in Hc as (_ & _ & Hs & Hl & ->).
  intros [= <-]. cbn [invoices.total].
  unfold window. rewrite length_take, length_drop. lia.
Qed.

Lemma list_invoices_total_formula_witness :
  ∃ resp,
    acme_db !! "invoices" =
      Some [mk_invoice 1 "INV-B" "paid"; mk_invoice 2 "INV-A" "open"] ∧
    (invoices.list_invoices 1 10 None None acme_db).1 = inr resp ∧
    invoices.total resp = Z.min 10 (Z.max 0 (2 - 1)).
Proof.
  eexists. split; [exact acme_db_invoices|]. split; [reflexivity|].
  exact (list_invoices_total_formula acme_db _ 1 10 None None _
           acme_db_invoices eq_refl).
Defined.

(** ** What a page holds *)

(** X7.  A page never holds anything but stored rows: every row of a
    page returned by a list operation of [crud] or by [list_invoices] is
    a row of the table, and when the ids of the table are pairwise
    distinct no id occurs twice in the page. *)
Theorem page_rows_are_stored_rows
    (CC V S I C : OrmClass) (fields : list string)
    (op : Z → Z → option string → option string → M table)
    (db : database) (rows : table) (skip limit : Z)
    (sortby search : option string) :
  ((C, fields, op) ∈ orm_list_ops CC V S I →
   db !! tablename C = Some rows →
   ∀ page, (op skip limit sortby search db).1 = inr page →
     (∀ r, r ∈ page → r ∈ rows) ∧ (unique_ids rows → unique_ids page)) ∧
  (db !! "invoices" = Some rows →
   ∀ resp, (invoices.list_invoices skip limit sortby search db).1 = inr resp →
     (∀ r, r ∈ invoices.data resp → r ∈ rows) ∧
     (unique_ids rows → unique_ids (invoices.data resp))).
Proof.
  split.
  - intros ->%orm_list_ops_generic Hdb page
      (rows' & Hdb' & _ & _ & _ & _ & _ & ->)%list_query_returned.
    assert (rows' = rows) as -> by congruence. split.
    + intros r Hr%window_elem_of. rewrite order_rows_perm in Hr.
      by apply filter_elem_of in Hr as [? _].
    + intros Hu. apply unique_ids_window.
      eapply unique_ids_perm; [symmetry; apply order_rows_perm|].
      by apply unique_ids_filter.
  - intros Hdb resp. rewrite list_invoices_outcome, Hdb. cbn [fst].
    destruct (int64 limit && int64 skip); [|done].
    destruct (cut skip limit rows) as [|page] eqn:Hc; [done|].
    apply cut_page in Hc as (_ & _ & _ & _ & ->).
    intros [= <-]. cbn [invoices.data]. split.
    + intros r. apply window_elem_of.
    + apply unique_ids_window.
Qed.

Lemma page_rows_are_stored_rows_witness :
  ∃ page,
    (crud.get_companies company_cls 1 2 (Some "id:desc") (Some "e") acme_db).1
      = inr page ∧
    (∀ r, r ∈ page →
       r ∈ [mk_company 1 "Acme"; mk_company 2 "Acme Corp";
            mk_company 3 "Zenith"]) ∧
    (unique_ids [mk_company 1 "Acme"; mk_company 2 "Acme Corp";
                 mk_company 3 "Zenith"] → unique_ids page).
Proof.
  eexists. split; [reflexivity|].
  refine (proj1 (page_rows_are_stored_rows company_cls vendor_cls sow_cls
                   invoice_cls company_cls company_fields
                   (crud.get_companies company_cls) acme_db _ 1 2
                   (Some "id:desc") (Some "e")) _ acme_db_companies _ eq_refl).
  by left.
Defined.



(** X9.  A page that is large enough holds the whole result: from
    [skip = 0] and with [limit] at least the size of the table, a list
    operation of [crud] returns every stored row that passes the search
    filter, each once, in the requested order (all stored rows when
    there is no search). *)
Theorem large_page_returns_every_match
    (CC V S I C : OrmClass) (fields : list string)
    (op : Z → Z → option string → option string → M table)
    (db : database) (rows : table) (limit : Z)
    (sortby search : option string) (page : table) :
  (C, fields, op) ∈ orm_list_ops CC V S I →
  db !! tablename C = Some rows →
  Z.of_nat (length rows) ≤ limit →
  (op 0 limit sortby search db).1 = inr page →
  page ≡ₚ List.filter (matches db fields search) rows.
Proof.
  intros ->%orm_list_ops_generic Hdb Hlen
    (rows' & Hdb' & _ & _ & _ & _ & _ & ->)%list_query_returned.
  assert (rows' = rows) as -> by congruence.
  unfold window. rewrite drop_0, take_ge; [apply order_rows_perm|].
  rewrite order_rows_perm.
  pose proof (filter_length_le (matches db fields search) rows). lia.
Qed.

Lemma large_page_returns_every_match_witness :
  ∃ page,
    (crud.get_companies company_cls 0 3 (Some "company_name:desc") None
       acme_db).1 = inr page ∧
    page ≡ₚ List.filter (matches acme_db company_fields None)
              [mk_company 1 "Acme"; mk_company 2 "Acme Corp";
               mk_company 3 "Zenith"].
Proof.
  eexists. split; [reflexivity|].
  refine (large_page_returns_every_match company_cls vendor_cls sow_cls
            invoice_cls company_cls company_fields
            (crud.get_companies company_cls) acme_db _ 3
            (Some "company_name:desc") None _ _ acme_db_companies _ eq_refl).
  - by left.
  - simpl. lia.
Defined.

(** X10.  No results is an empty page, not an error: with the table in
    place and [skip], [limit] not negative and in the 64-bit range of
    the server, a list operation of [crud] without [sortby] returns the
    empty page when [limit] is 0 or when [skip] reaches the size of the
    table, and so does any call of it that returns at all;
    [list_invoices] then answers with no data and a total of 0. *)
Theorem empty_page_is_not_an_error
    (CC V S I C : OrmClass) (fields : list string)
    (op : Z → Z → option string → option string → M table)
    (db : database) (rows : table) (skip limit : Z)
    (sortby search : option string) :
  0 ≤ skip → int64 skip = true → 0 ≤ limit → int64 limit = true →
  limit = 0 ∨ Z.of_nat (length rows) ≤ skip →
  ((C, fields, op) ∈ orm_list_ops CC V S I →
   db !! tablename C = Some rows →
   op skip limit None search db = (inr [], db) ∧
   ∀ page, (op skip limit sortby search db).1 = inr page → page = []) ∧
  (db !! "invoices" = Some rows →
   invoices.list_invoices skip limit sortby search db =
     (inr {| invoices.data := []; invoices.total := 0;
             invoices.skip := skip; invoices.limit := limit |}, db)).
Proof.
  intros Hs Hsi Hl Hli Hempty.
  assert (∀ l : table, (length l ≤ length rows)%nat → window skip limit l = [])
    as Hwin.
  { intros l Hlen. unfold window. destruct Hempty as [->|Hskip].
    - apply take_0.
    - rewrite drop_ge by lia. by destruct (Z.to_nat limit). }
  assert (∀ terms, (length (order_rows db [] terms
                      (List.filter (matches db fields search) rows))
                    ≤ length rows)%nat) as Hlen.
  { intros terms. rewrite order_rows_perm. apply filter_length_le. }
  split.
  - intros ->%orm_list_ops_generic Hdb. split.
    + rewrite (list_query_returns _ _ _ _ _ _ _ rows) by done.
      by rewrite Hwin.
    + intros page (rows' & Hdb' & _ & _ & _ & _ & _ & ->)%list_query_returned.
      assert (rows' = rows) as -> by congruence. by apply Hwin.
  - intros Hdb. rewrite list_invoices_outcome, Hdb, Hsi, Hli. cbn [andb].
    rewrite cut_returns by done. by rewrite Hwin.
Qed.

Lemma empty_page_is_not_an_error_witness :
  (0 ≤ 5 ∧ int64 5 = true ∧ 0 ≤ 10 ∧ int64 10 = true ∧
   (10 = 0 ∨ Z.of_nat 3 ≤ 5)) ∧
  crud.get_companies company_cls 5 10 None (Some "acme") acme_db
    = (inr [], acme_db).
Proof.
  assert (0 ≤ 5 ∧ int64 5 = true ∧ 0 ≤ 10 ∧ int64 10 = true ∧
          (10 = 0 ∨ Z.of_nat 3 ≤ 5)) as H.
  { split; [lia|]. split; [done|]. split; [lia|]. split; [done|].
    right; simpl; lia. }
  split; [exact H|]. destruct H as (H1 & H2 & H3 & H4 & H5).
  refine (proj1 (proj1 (empty_page_is_not_an_error company_cls vendor_cls
                          sow_cls invoice_cls company_cls company_fields
                          (crud.get_companies company_cls) acme_db
                          [mk_company 1 "Acme"; mk_company 2 "Acme Corp";
                           mk_company 3 "Zenith"]
                          5 10 None (Some "acme") H1 H2 H3 H4 H5) _
                   acme_db_companies)).
  by left.
Defined.

(** ** The search filter in general *)

(** X11.  Whatever the search term holds, wildcards included, a page of
    a list operation of [crud] is the [skip]/[limit] window of an
    ordering of exactly the stored rows that pass the filter of the
    search: all rows for an absent or empty term, else the rows with a
    searched column that matches [%term%] under ILIKE, character by
    character, in the lower-casing of the server. *)
Theorem page_is_window_of_filtered_rows
    (CC V S I C : OrmClass) (fields : list string)
    (op : Z → Z → option string → option string → M table)
    (db : database) (skip limit : Z) (sortby search : option string)
    (page : table) :
  (C, fields, op) ∈ orm_list_ops CC V S I →
  (op skip limit sortby search db).1 = inr page →
  (∀ r, r ∈ page → matches db fields search r = true) ∧
  ∃ rows ordered,
    db !! tablename C = Some rows ∧
    ordered ≡ₚ List.filter (matches db fields search) rows ∧
    page = window skip limit ordered.
Proof.
  intros ->%orm_list_ops_generic
    (rows & Hdb & _ & _ & _ & _ & _ & ->)%list_query_returned.
  split.
  - intros r Hr%window_elem_of. rewrite order_rows_perm in Hr.
    by apply filter_elem_of in Hr as [_ ?].
  - eexists rows, _. split; [done|]. split; [apply order_rows_perm|done].
Qed.

Lemma page_is_window_of_filtered_rows_witness :
  ∃ page,
    (crud.get_companies company_cls 0 10 None (Some "a_me") acme_db).1
      = inr page ∧
    ∀ r, r ∈ page → matches acme_db company_fields (Some "a_me") r = true.
Proof.
  eexists. split; [reflexivity|].
  refine (proj1 (page_is_window_of_filtered_rows company_cls vendor_cls
                   sow_cls invoice_cls company_cls company_fields
                   (crud.get_companies company_cls) acme_db 0 10 None
                   (Some "a_me") _ _ eq_refl)).
  by left.
Defined.

Lemma like_percent_run q s :
  Forall (fun ch => ch = "%") q → q ≠ [] → like_match q s = true.
Proof.
  intros Hq. revert s. induction Hq as [|c q -> Hq IH]; intros s Hne; [done|].
  destruct q as [|c' q]; [apply like_percent_only|].
  rewrite like_percent, IH by done. done.
Qed.

Lemma lower_all_percent db t :
  all_percent t = true → Forall (fun ch => ch = "%") (lower db t).
Proof.
  unfold lower. induction t as [|c t IH]; [constructor|].
  simpl all_percent. intros [Hc%Ascii.eqb_eq Ht]%andb_true_iff. subst c.
  rewrite chars_ascii by done. rewrite fmap_cons.
  constructor; [done|by apply IH].
Qed.

(** X12.  The term is not escaped: for a search term made of ["%"]
    only, a list operation of [crud] filters on nothing but the presence
    of a text, so that it returns (within the window) every stored row
    with a text in one of the searched columns. *)
Theorem percent_term_matches_any_text
    (CC V S I C : OrmClass) (fields : list string)
    (op : Z → Z → option string → option string → M table)
    (db : database) (skip limit : Z) (sortby : option string)
    (term : string) (page : table) :
  (C, fields, op) ∈ orm_list_ops CC V S I →
  term ≠ "" → all_percent term = true →
  (op skip limit sortby (Some term) db).1 = inr page →
  ∃ rows ordered,
    db !! tablename C = Some rows ∧
    ordered ≡ₚ List.filter (has_text fields) rows ∧
    page = window skip limit ordered.
Proof.
  intros ->%orm_list_ops_generic Hne Hall
    (rows & Hdb & _ & _ & _ & _ & _ & ->)%list_query_returned.
  eexists rows, _. split; [done|]. split; [|done].
  rewrite order_rows_perm.
  rewrite (filter_pointwise _ (has_text fields)); [done|].
  intros r. destruct term as [|c t]; [done|].
  unfold matches, row_ilike, has_text. cbn [if_truthy].
  induction fields as [|f fields IH]; [done|].
  cbn [existsb]. rewrite IH. f_equal.
  destruct (field r f) as [| | |s]; try done.
  cbn [sql_ilike]. rewrite is_true_VBool, lower_wrap.
  apply like_percent_run; [|done].
  constructor; [done|]. apply Forall_app. split; [|by constructor].
  by apply lower_all_percent.
Qed.

Lemma percent_term_matches_any_text_witness :
  ("%" ≠ "" ∧ all_percent "%" = true) ∧
  ∃ page rows ordered,
    (crud.get_companies company_cls 0 10 None (Some "%") acme_db).1
      = inr page ∧
    acme_db !! tablename company_cls = Some rows ∧
    ordered ≡ₚ List.filter (has_text company_fields) rows ∧
    page = window 0 10 ordered.
Proof.
  assert ("%" ≠ "" ∧ all_percent "%" = true) as H by done.
  split; [exact H|]. destruct H as [H1 H2].
  eexists.
  destruct (percent_term_matches_any_text company_cls vendor_cls sow_cls
              invoice_cls company_cls company_fields
              (crud.get_companies company_cls) acme_db 0 10 None "%" _
              ltac:(by left) H1 H2 eq_refl) as (rows & ordered & ? & ? & ?).
  exists rows, ordered. by split.
Defined.

(** *** Letter case of the term *)

Lemma ci_eqb_eq a b : ci_eqb a b = true ↔ to_lower a = to_lower b.
Proof. apply Ascii.eqb_eq. Qed.

(** Two bytes that agree up to letter case are the same byte or two
    ASCII bytes. *)
Lemma ci_eqb_cases a b :
  ci_eqb a b = true → a = b ∨ (is_ascii a = true ∧ is_ascii b = true).
Proof.
  intros Hab%ci_eqb_eq. destruct (is_ascii a) eqn:Ha.
  - right. split; [done|].
    by rewrite <- (to_lower_ascii b), <- Hab, to_lower_ascii.
  - left. assert (is_ascii b = false) as Hb.
    { by rewrite <- (to_lower_ascii b), <- Hab, to_lower_ascii. }
    by rewrite <- (to_lower_not_ascii a Ha), Hab, to_lower_not_ascii.
Qed.

Lemma same_character_continuation ch ch' :
  same_character ch ch' →
  starts_with_continuation ch = true ∨ starts_with_continuation ch' = true →
  ch = ch'.
Proof.
  intros [->|(a & b & -> & -> & Ha & Hb & Hab)]; [done|].
  simpl. intros [H%is_continuation_not_ascii|H%is_continuation_not_ascii];
    congruence.
Qed.

Lemma same_character_fold db ch ch' :
  same_character ch ch' → fold db ch = fold db ch'.
Proof.
  intros [->|(a & b & -> & -> & Ha & Hb & Hab)]; [done|].
  simpl. by rewrite Ha, Hb, Hab.
Qed.

Lemma chars_same_letters t t' :
  same_letters t t' = true → Forall2 same_character (chars t) (chars t').
Proof.
  revert t'. induction t as [|a t IH]; intros [|b t'] Htt; try done.
  simpl in Htt. apply andb_true_iff in Htt as [Hab Htt].
  specialize (IH t' Htt). simpl.
  assert (same_character (String a "") (String b "")) as Hsingle.
  { destruct (ci_eqb_cases a b Hab) as [->|[Ha Hb]]; [by left|].
    right. exists a, b. by rewrite <- ci_eqb_eq. }
  destruct IH as [|ch ch' chs chs' Hch Hchs];
    [constructor; [done|constructor]|].
  destruct (ci_eqb_cases a b Hab) as [->|[Ha Hb]].
  - destruct (negb (is_ascii b) && starts_with_continuation ch) eqn:Hm.
    + apply andb_true_iff in Hm as [Hb Hc].
      assert (ch = ch') as <-
        by (apply same_character_continuation; [done|by left]).
      rewrite Hb, Hc. cbn [andb]. constructor; [by left|done].
    + assert (negb (is_ascii b) && starts_with_continuation ch' = false)
        as ->.
      { destruct (negb (is_ascii b)); [|done]. cbn [andb] in *.
        destruct (starts_with_continuation ch') eqn:Hc'; [|done].
        assert (ch = ch') as ->
          by (apply same_character_continuation; [done|by right]).
        congruence. }
      constructor; [by left|]. by constructor.
  - rewrite Ha, Hb. cbn [negb andb]. constructor; [done|]. by constructor.
Qed.

Lemma lower_same_letters db t t' :
  same_letters t t' = true → lower db t = lower db t'.
Proof.
  intros Htt%chars_same_letters. unfold lower.
  induction Htt as [|ch ch' chs chs' Hch _ IH]; [done|].
  rewrite !fmap_cons. f_equal; [by apply same_character_fold|done].
Qed.

(** X13.  The search does not see letter case in the term either: two
    terms that differ in the case of their ASCII letters only give the
    same outcome, for every list operation of [crud]. *)
Theorem search_term_case_is_irrelevant
    (CC V S I C : OrmClass) (fields : list string)
    (op : Z → Z → option string → option string → M table)
    (db : database) (skip limit : Z) (sortby : option string)
    (term term' : string) :
  (C, fields, op) ∈ orm_list_ops CC V S I →
  same_letters term term' = true →
  op skip limit sortby (Some term) db = op skip limit sortby (Some term') db.
Proof.
  intros ->%orm_list_ops_generic Htt. rewrite !list_query_outcome.
  assert (∀ rows, List.filter (matches db fields (Some term)) rows =
                  List.filter (matches db fields (Some term')) rows) as Hf.
  { intros rows. apply filter_pointwise. intros r.
    destruct term as [|c t], term' as [|c' t']; try done.
    unfold matches, row_ilike. cbn [if_truthy].
    induction fields as [|f fields IHf]; [done|].
    cbn [existsb]. rewrite IHf. f_equal.
    destruct (field r f) as [| | |s]; try done.
    cbn [sql_ilike]. rewrite !is_true_VBool, !lower_wrap.
    by rewrite (lower_same_letters db _ _ Htt). }
  destruct (plan C sortby); [| |done];
    destruct (db !! tablename C); by rewrite ?Hf.
Qed.

Lemma search_term_case_is_irrelevant_witness :
  same_letters "ACME corp" "acme CORP" = true ∧
  crud.get_companies company_cls 0 10 None (Some "ACME corp") acme_db =
    crud.get_companies company_cls 0 10 None (Some "acme CORP") acme_db.
Proof.
  assert (same_letters "ACME corp" "acme CORP" = true) as H by reflexivity.
  split; [exact H|].
  refine (search_term_case_is_irrelevant company_cls vendor_cls sow_cls
            invoice_cls company_cls company_fields
            (crud.get_companies company_cls) acme_db 0 10 None _ _ _ H).
  by left.
Defined.

(** ** Sort requests *)

(** X14.  Only the exact word ["desc"] sorts downwards: two directions
    that both differ from it (["asc"], ["DESC"], the empty string, a
    typo) give the same outcome, for every column name, mapped or not,
    and every list operation of [crud]. *)
Theorem directions_other_than_desc_agree
    (CC V S I C : OrmClass) (fields : list string)
    (op : Z → Z → option string → option string → M table)
    (db : database) (skip limit : Z) (col dir dir' : string)
    (search : option string) :
  (C, fields, op) ∈ orm_list_ops CC V S I →
  colon_free col = true → colon_free dir = true → colon_free dir' = true →
  dir ≠ "desc" → dir' ≠ "desc" →
  op skip limit (Some (col +:+ ":" +:+ dir)) search db =
    op skip limit (Some (col +:+ ":" +:+ dir')) search db.
Proof.
  intros ->%orm_list_ops_generic Hc Hd Hd' Hne%String.eqb_neq
    Hne'%String.eqb_neq.
  rewrite !list_query_outcome, !plan_pair by done.
  unfold direction_of. by rewrite Hne, Hne'.
Qed.

Lemma directions_other_than_desc_agree_witness :
  (colon_free "company_name" = true ∧ colon_free "DESC" = true ∧
   colon_free "asc" = true ∧ "DESC" ≠ "desc" ∧ "asc" ≠ "desc") ∧
  crud.get_companies company_cls 0 10 (Some "company_name:DESC") None acme_db =
    crud.get_companies company_cls 0 10 (Some "company_name:asc") None acme_db.
Proof.
  assert (colon_free "company_name" = true ∧ colon_free "DESC" = true ∧
          colon_free "asc" = true ∧ "DESC" ≠ "desc" ∧ "asc" ≠ "desc") as H
    by (repeat split; done).
  split; [exact H|]. destruct H as (H1 & H2 & H3 & H4 & H5).
  exact (directions_other_than_desc_agree company_cls vendor_cls sow_cls
           invoice_cls company_cls company_fields
           (crud.get_companies company_cls) acme_db 0 10
           "company_name" "DESC" "asc" None ltac:(by left) H1 H2 H3 H4 H5).
Defined.

(** X16.  [skip] and [limit] reach the database as they are: with the
    table in place and both counts in the 64-bit range, a negative
    [skip] or a negative [limit] makes a list operation of [crud]
    without [sortby], and [list_invoices], fail with the row-count error
    of the server instead of returning a page, each in the form of its
    own driver; the server looks at OFFSET first, so that a negative
    [skip] is what is reported when both are negative. *)
Theorem negative_row_counts_are_refused
    (CC V S I C : OrmClass) (fields : list string)
    (op : Z → Z → option string → option string → M table)
    (db : database) (rows : table) (skip limit : Z)
    (sortby search : option string) :
  int64 skip = true → int64 limit = true →
  skip < 0 ∨ limit < 0 →
  ((C, fields, op) ∈ orm_list_ops CC V S I →
   db !! tablename C = Some rows →
   op skip limit None search db =
     (inl (DBAPIError (if (skip <? 0) then InvalidRowCountInResultOffsetClause
                       else InvalidRowCountInLimitClause)), db)) ∧
  (db !! "invoices" = Some rows →
   invoices.list_invoices skip limit sortby search db =
     (inl (PostgresError
             (if (skip <? 0) then InvalidRowCountInResultOffsetClause
              else InvalidRowCountInLimitClause)), db)).
Proof.
  intros Hsi Hli Hneg.
  assert (∀ l, cut skip limit l =
               inl (if (skip <? 0) then InvalidRowCountInResultOffsetClause
                    else InvalidRowCountInLimitClause)) as Hcut.
  { intros l. unfold cut. rewrite Hsi, Hli. cbn [negb].
    destruct (skip <? 0) eqn:Hs; [done|].
    apply Z.ltb_ge in Hs.
    assert ((limit <? 0) = true) as -> by (apply Z.ltb_lt; lia). done. }
  split.
  - intros ->%orm_list_ops_generic Hdb.
    rewrite list_query_outcome, Hdb. cbn [plan if_truthy].
    by rewrite Hcut.
  - intros Hdb. rewrite list_invoices_outcome, Hdb, Hsi, Hli. cbn [andb].
    by rewrite Hcut.
Qed.

Lemma negative_row_counts_are_refused_witness :
  (int64 (-1) = true ∧ (-1 < 0 ∨ -1 < 0)) ∧
  invoices.list_invoices (-1) (-1) None None acme_db =
    (inl (PostgresError InvalidRowCountInResultOffsetClause), acme_db) ∧
  crud.get_companies company_cls (-1) (-1) None None acme_db =
    (inl (DBAPIError InvalidRowCountInResultOffsetClause), acme_db).
Proof.
  assert (int64 (-1) = true ∧ (-1 < 0 ∨ -1 < 0)) as H
    by (split; [done|left; lia]).
  split; [exact H|]. destruct H as [H1 H2]. split.
  - exact (proj2 (negative_row_counts_are_refused company_cls vendor_cls
                    sow_cls invoice_cls company_cls company_fields
                    (crud.get_companies company_cls) acme_db _ (-1) (-1)
                    None None H1 H1 H2) acme_db_invoices).
  - exact (proj1 (negative_row_counts_are_refused company_cls vendor_cls
                    sow_cls invoice_cls company_cls company_fields
                    (crud.get_companies company_cls) acme_db _ (-1) (-1)
                    None None H1 H1 H2) ltac:(by left) acme_db_companies).
Defined.

(** *** The order across a page and across pages *)

#[local] Instance may_precede_trans col d : Transitive (may_precede col d).
Proof.
  intros r1 r2 r3. unfold may_precede. destruct d; intros H1 H2.
  - by eapply value_leb_trans.
  - by eapply value_leb_trans.
Qed.

Lemma may_precede_refl col d r : may_precede col d r r.
Proof. destruct d; apply value_leb_refl. Qed.

Lemma sorted_rows_strongly db col d (rows : table) :
  StronglySorted (may_precede col d)
    (order_rows db [] [(Col col, d)] rows).
Proof.
  apply Sorted_StronglySorted; [apply _|].
  cbn [order_rows foldr].
  assert (Sorted (fun a b => term_leb db [] (Col col, d) a b = true)
            (sort_by (term_leb db [] (Col col, d)) rows)) as Hs.
  { apply sort_by_sorted. intros r1 r2. apply term_leb_total. }
  by destruct d.
Qed.

(** X17.  The first row of the first page is an extreme of the whole
    result: with [skip = 0] and a sort request on a mapped column, the
    first row a list operation of [crud] returns comes, in the requested
    order, before every stored row that passes the search filter (for
    ["desc"] it carries the greatest value of the column, otherwise the
    smallest). *)
Theorem first_row_is_extreme
    (CC V S I C : OrmClass) (fields : list string)
    (op : Z → Z → option string → option string → M table)
    (db : database) (rows : table) (limit : Z) (col dir : string)
    (search : option string) (r : row) (rest : table) :
  (C, fields, op) ∈ orm_list_ops CC V S I →
  colon_free col = true → colon_free dir = true → col ∈ columns C →
  db !! tablename C = Some rows →
  (op 0 limit (Some (col +:+ ":" +:+ dir)) search db).1 = inr (r :: rest) →
  ∀ r', r' ∈ rows → matches db fields search r' = true →
        may_precede col (direction_of dir) r r'.
Proof.
  intros ->%orm_list_ops_generic Hc Hd Hin Hdb
    (rows' & Hdb' & _ & _ & _ & _ & _ & Hpage)%list_query_returned r' Hr' Hm.
  assert (rows' = rows) as -> by congruence.
  rewrite plan_valid_column in Hpage by done. cbn [plan_terms] in Hpage.
  pose proof (sorted_rows_strongly db col (direction_of dir)
                (List.filter (matches db fields search) rows)) as Hs.
  assert (r' ∈ order_rows db [] [(Col col, direction_of dir)]
                 (List.filter (matches db fields search) rows)) as Hr.
  { rewrite order_rows_perm. by apply filter_elem_of. }
  unfold window in Hpage. rewrite drop_0 in Hpage.
  destruct (order_rows _ _ _ _) as [|x l]; [by destruct (Z.to_nat limit)|].
  destruct (Z.to_nat limit); [done|]. injection Hpage as -> _.
  apply StronglySorted_inv in Hs as [_ Hall].
  apply elem_of_cons in Hr as [->|Hr]; [apply may_precede_refl|].
  rewrite Forall_forall in Hall. by apply Hall.
Qed.

Lemma first_row_is_extreme_witness :
  (colon_free "company_name" = true ∧ colon_free "desc" = true ∧
   "company_name" ∈ columns company_cls) ∧
  ∃ rest,
    (crud.get_companies company_cls 0 2 (Some "company_name:desc") None
       acme_db).1 = inr (mk_company 3 "Zenith" :: rest) ∧
    ∀ r', r' ∈ [mk_company 1 "Acme"; mk_company 2 "Acme Corp";
                mk_company 3 "Zenith"] →
          matches acme_db company_fields None r' = true →
          may_precede "company_name" (direction_of "desc")
            (mk_company 3 "Zenith") r'.
Proof.
  assert (colon_free "company_name" = true ∧ colon_free "desc" = true ∧
          "company_name" ∈ columns company_cls) as H.
  { split; [done|]. split; [done|]. right. left. }
  split; [exact H|]. destruct H as (H1 & H2 & H3).
  eexists. split; [reflexivity|].
  exact (first_row_is_extreme company_cls vendor_cls sow_cls invoice_cls
           company_cls company_fields (crud.get_companies company_cls)
           acme_db _ 2 "company_name" "desc" None _ _
           ltac:(by left) H1 H2 H3 acme_db_companies eq_refl).
Defined.

(** X18.  The order holds across pages: with one sort request on a
    mapped column, every row of a page of a list operation of [crud]
    comes, in the requested order, before every row of any page that
    starts at or after the end of the first ([skip' >= skip + limit]). *)
Theorem later_pages_follow_in_order
    (CC V S I C : OrmClass) (fields : list string)
    (op : Z → Z → option string → option string → M table)
    (db : database) (skip limit skip' limit' : Z) (col dir : string)
    (search : option string) (p1 p2 : table) :
  (C, fields, op) ∈ orm_list_ops CC V S I →
  colon_free col = true → colon_free dir = true → col ∈ columns C →
  skip + limit ≤ skip' →
  (op skip limit (Some (col +:+ ":" +:+ dir)) search db).1 = inr p1 →
  (op skip' limit' (Some (col +:+ ":" +:+ dir)) search db).1 = inr p2 →
  ∀ r1 r2, r1 ∈ p1 → r2 ∈ p2 → may_precede col (direction_of dir) r1 r2.
Proof.
  intros ->%orm_list_ops_generic Hc Hd Hin Hle
    (rows & Hdb & _ & _ & Hs & Hl & _ & ->)%list_query_returned
    (rows' & Hdb' & _ & _ & Hs' & _ & _ & ->)%list_query_returned r1 r2 H1 H2.
  assert (rows' = rows) as -> by congruence.
  rewrite plan_valid_column in H1, H2 by done. cbn [plan_terms] in H1, H2.
  pose proof (sorted_rows_strongly db col (direction_of dir)
                (List.filter (matches db fields search) rows)) as Hsorted.
  set (L := order_rows _ _ _ _) in *.
  set (k := (Z.to_nat skip + Z.to_nat limit)%nat).
  rewrite <- (take_drop k L) in Hsorted.
  eapply StronglySorted_app_1_elem_of; [exact Hsorted| |].
  - unfold window in H1. rewrite take_drop_commute in H1.
    by apply (subseteq_drop (Z.to_nat skip)) in H1.
  - unfold window in H2. apply (subseteq_take (Z.to_nat limit')) in H2.
    replace (Z.to_nat skip') with (k + (Z.to_nat skip' - k))%nat in H2
      by (unfold k; lia).
    rewrite <- drop_drop in H2.
    by apply (subseteq_drop (Z.to_nat skip' - k)) in H2.
Qed.

Lemma later_pages_follow_in_order_witness :
  (colon_free "company_name" = true ∧ colon_free "asc" = true ∧
   "company_name" ∈ columns company_cls ∧ 0 + 1 ≤ 2) ∧
  ∃ p1 p2,
    (crud.get_companies company_cls 0 1 (Some "company_name:asc") None
       acme_db).1 = inr p1 ∧
    (crud.get_companies company_cls 2 5 (Some "company_name:asc") None
       acme_db).1 = inr p2 ∧
    ∀ r1 r2, r1 ∈ p1 → r2 ∈ p2 →
      may_precede "company_name" (direction_of "asc") r1 r2.
Proof.
  assert (colon_free "company_name" = true ∧ colon_free "asc" = true ∧
          "company_name" ∈ columns company_cls ∧ 0 + 1 ≤ 2) as H.
  { split; [done|]. split; [done|]. split; [right; left|lia]. }
  split; [exact H|]. destruct H as (H1 & H2 & H3 & H4).
  eexists _, _. split; [reflexivity|]. split; [reflexivity|].
  exact (later_pages_follow_in_order company_cls vendor_cls sow_cls
           invoice_cls company_cls company_fields
           (crud.get_companies company_cls) acme_db 0 1 2 5
           "company_name" "asc" None _ _
           ltac:(by left) H1 H2 H3 H4 eq_refl eq_refl).
Defined.

(** ** From a page to its rows *)

(** X19.  Listing and looking up compose: when the ids of the table are
    pairwise distinct, every row of a page returned by a list operation
    of [crud] is what the lookup by id on the same mapped class returns
    for that row's id. *)
Theorem listed_row_is_found_by_its_id
    (CC V S I C : OrmClass) (fields : list string)
    (lop : Z → Z → option string → option string → M table)
    (gop : Z → M (option row))
    (db : database) (rows : table) (skip limit : Z)
    (sortby search : option string) (page : table) (r : row) (n : Z) :
  (C, fields, lop) ∈ orm_list_ops CC V S I →
  (C, gop) ∈ orm_get_ops CC V S I →
  db !! tablename C = Some rows → unique_ids rows →
  (lop skip limit sortby search db).1 = inr page →
  r ∈ page → row_id r = VInt n →
  gop n db = (inr (Some r), db).
Proof.
  intros ->%orm_list_ops_generic ->%orm_get_ops_generic Hdb Hu
    (rows' & Hdb' & _ & _ & _ & _ & _ & ->)%list_query_returned
    Hr%window_elem_of Hid.
  assert (rows' = rows) as -> by congruence.
  rewrite order_rows_perm in Hr. apply filter_elem_of in Hr as [Hr _].
  by apply (first_by_id_stored C db rows).
Qed.

Lemma listed_row_is_found_by_its_id_witness :
  unique_ids [mk_company 1 "Acme"; mk_company 2 "Acme Corp";
              mk_company 3 "Zenith"] ∧
  (crud.get_companies company_cls 0 1 (Some "id:desc") None acme_db).1
    = inr [mk_company 3 "Zenith"] ∧
  crud.get_company company_cls 3 acme_db
    = (inr (Some (mk_company 3 "Zenith")), acme_db).
Proof.
  assert (unique_ids [mk_company 1 "Acme"; mk_company 2 "Acme Corp";
                      mk_company 3 "Zenith"]) as H
    by apply (acme_db_unique_ids "companies"), acme_db_companies.
  split; [exact H|]. split; [reflexivity|].
  refine (listed_row_is_found_by_its_id company_cls vendor_cls sow_cls
            invoice_cls company_cls company_fields
            (crud.get_companies company_cls) (crud.get_company company_cls)
            acme_db _ 0 1 (Some "id:desc") None [mk_company 3 "Zenith"]
            (mk_company 3 "Zenith") 3 _ _ acme_db_companies H eq_refl _
            eq_refl); by left.
Defined.
